(** * RayParticle3D: a shallow embedding of [RayParticle3D.h]

    The header defines four layers: the range samplers [FloatRange] and
    [IntRange], the [Particle] record with its physics step, the [Emitter]
    that owns a fixed pool of particles, and the [ParticleSystem] that owns
    a list of emitters.  The demo program that comes with the header,
    three emitters in one system and a frame loop, is embedded in [Demo].

    Conventions of the embedding:
    - C++ [float] is IEEE-754 binary32, taken from the Standard Library's
      executable specification [SpecFloat] at precision 24 and maximal
      exponent 128, round-to-nearest-even; every operation of the source
      is rounded on its own (no fused multiply-add, no excess precision);
    - [size_t] and [unsigned long] are 64-bit and are carried as [Z] with
      the wrap-around written where the source increments or decrements;
      [int] and [unsigned char] are carried as [Z];
    - the global random source behind raylib's [GetRandomValue], libm's
      [cosf]/[sinf] and raylib's model and matrix types are the operations
      of a [Platform];
    - [std::for_each] with [std::execution::par_unseq] is embedded as the
      left-to-right traversal of the range, each element visited once: the
      lambdas of the source write captured variables without
      synchronisation, and this is the execution in which they do not
      interleave. *)

From Stdlib Require Import ZArith List Bool Lia.
From Stdlib Require Import Floats.SpecFloat.
Import ListNotations.

Local Open Scope Z_scope.

(** ** binary32 arithmetic *)

Module F32.

Definition prec : Z := 24.
Definition emax : Z := 128.

Definition float : Type := spec_float.

Definition add : float -> float -> float := SFadd prec emax.
Definition sub : float -> float -> float := SFsub prec emax.
Definition mul : float -> float -> float := SFmul prec emax.
Definition div : float -> float -> float := SFdiv prec emax.
Definition sqrt : float -> float := SFsqrt prec emax.
Definition opp : float -> float := SFopp.

(** The comparisons [a < b], [a <= b], [a == b] of C++; all three are
    false as soon as one side is a NaN. *)
Definition ltb : float -> float -> bool := SFltb.
Definition leb : float -> float -> bool := SFleb.
Definition eqb : float -> float -> bool := SFeqb.

(** [a > b] is [b < a]. *)
Definition gtb (a b : float) : bool := ltb b a.

(** Conversion of an integer ([int], [size_t]) to [float]. *)
Definition of_Z (n : Z) : float := binary_normalize prec emax n 0 false.

Definition zero : float := S754_zero false.
Definition one : float := Eval vm_compute in of_Z 1.
Definition half : float := Eval vm_compute in div one (of_Z 2).
Definition tenth : float := Eval vm_compute in div one (of_Z 10).

(** Truncation toward zero of a finite value; [None] on infinities and
    NaN. *)
Definition trunc (f : float) : option Z :=
  match f with
  | S754_zero _ => Some 0
  | S754_finite s m e =>
      let mag := match e with
                 | Zneg p => Z.shiftr (Zpos m) (Zpos p)
                 | _ => Z.shiftl (Zpos m) e
                 end in
      Some (if s then - mag else mag)
  | _ => None
  end.

(** [static_cast<size_t>(f)].  C++ defines the result only when the
    truncated value fits the target type; outside that range the
    embedding wraps modulo [2^64], and yields 0 for infinities and NaN. *)
Definition to_size_t (f : float) : Z :=
  match trunc f with
  | Some v => v mod 2 ^ 64
  | None => 0
  end.

(** [static_cast<unsigned char>(f)], with the same treatment of the
    values C++ leaves undefined. *)
Definition to_uchar (f : float) : Z :=
  match trunc f with
  | Some v => v mod 256
  | None => 0
  end.




(** Zero, or finite and positive. *)
Definition nonneg_finite (f : float) : bool :=
  match f with
  | S754_zero _ => true
  | S754_finite false _ _ => true
  | _ => false
  end.

End F32.

Abbreviation float := F32.float.

(** 64-bit unsigned wrap-around of [size_t] and [unsigned long]. *)
Definition wrap64 (n : Z) : Z := n mod 2 ^ 64.

(** ** raymath vectors

    [Vector3] and the functions on it come from raylib's [raymath.h]
    (as of raylib 4.0), which the header includes through [raylib.h]. *)

Module Vector3.

Record t : Type := mk { x : float; y : float; z : float }.

Definition zero : t := mk F32.zero F32.zero F32.zero.

Definition with_y (v : t) (y' : float) : t := mk (x v) y' (z v).

End Vector3.

Abbreviation Vector3 := Vector3.t.

Definition Vector3Add (v1 v2 : Vector3) : Vector3 :=
  Vector3.mk (F32.add (Vector3.x v1) (Vector3.x v2))
             (F32.add (Vector3.y v1) (Vector3.y v2))
             (F32.add (Vector3.z v1) (Vector3.z v2)).

Definition Vector3Subtract (v1 v2 : Vector3) : Vector3 :=
  Vector3.mk (F32.sub (Vector3.x v1) (Vector3.x v2))
             (F32.sub (Vector3.y v1) (Vector3.y v2))
             (F32.sub (Vector3.z v1) (Vector3.z v2)).

Definition Vector3Scale (v : Vector3) (scalar : float) : Vector3 :=
  Vector3.mk (F32.mul (Vector3.x v) scalar)
             (F32.mul (Vector3.y v) scalar)
             (F32.mul (Vector3.z v) scalar).

Definition Vector3Length (v : Vector3) : float :=
  F32.sqrt (F32.add (F32.add (F32.mul (Vector3.x v) (Vector3.x v))
                             (F32.mul (Vector3.y v) (Vector3.y v)))
                    (F32.mul (Vector3.z v) (Vector3.z v))).

Definition Vector3Distance (v1 v2 : Vector3) : float :=
  Vector3Length (Vector3Subtract v2 v1).

(** The zero vector (length 0) is returned unchanged. *)
Definition Vector3Normalize (v : Vector3) : Vector3 :=
  let length := Vector3Length v in
  if F32.eqb length F32.zero then v
  else Vector3Scale v (F32.div F32.one length).

(** [PI] and [DEG2RAD] of raylib.h: [3.14159265358979323846f] and
    [(PI/180.0f)]. *)
Definition PI : float := S754_finite false 13176795 (-22).
Definition DEG2RAD : float := Eval vm_compute in F32.div PI (F32.of_Z 180).

(** ** The platform: raylib and libm

    What the header takes from its environment and does not define: the
    global random source read by [GetRandomValue(min, max)] (an [int]),
    the constant [RAND_MAX], the single-precision [cosf] and [sinf], and
    raylib's [Model] and [Matrix] with the three matrix functions that
    [Emitter::Draw] calls. *)

Class Platform : Type := {
  RNG : Type;
  GetRandomValue : Z -> Z -> RNG -> Z * RNG;
  RAND_MAX : Z;
  cosf : float -> float;
  sinf : float -> float;
  Matrix : Type;
  MatrixTranslate : float -> float -> float -> Matrix;
  MatrixScale : float -> float -> float -> Matrix;
  MatrixMultiply : Matrix -> Matrix -> Matrix;
  Model : Type;
  Model_set_transform : Model -> Matrix -> Model
}.

(** Computations that read the random source thread its state. *)
Definition Rand {P : Platform} (A : Type) : Type := RNG -> A * RNG.

Definition ret {P : Platform} {A : Type} (a : A) : Rand A :=
  fun g => (a, g).

Definition bind {P : Platform} {A B : Type} (c : Rand A) (k : A -> Rand B)
  : Rand B :=
  fun g => let (a, g') := c g in k a g'.

Notation "x <- c ;; k" := (bind c (fun x => k))
  (at level 61, c at next level, right associativity).

(** raylib's [Color]: four [unsigned char] channels. *)
Module Color.

Record t : Type := mk { r : Z; g : Z; b : Z; a : Z }.

(** Every channel is a value of [unsigned char]. *)
Definition wf (c : t) : Prop :=
  0 <= r c < 256 /\ 0 <= g c < 256 /\ 0 <= b c < 256 /\ 0 <= a c < 256.

End Color.

Abbreviation Color := Color.t.

(** raylib's [BlendMode] enumeration. *)
Inductive BlendMode : Type :=
| BLEND_ALPHA
| BLEND_ADDITIVE
| BLEND_MULTIPLIED
| BLEND_ADD_COLORS
| BLEND_SUBTRACT_COLORS
| BLEND_ALPHA_PREMULTIPLY
| BLEND_CUSTOM
| BLEND_CUSTOM_SEPARATE.

(** ** Range samplers *)

Module FloatRange.

Record t : Type := mk { min : float; max : float }.

Section Sampling.
Context {P : Platform}.

(** [((float)GetRandomValue(0, RAND_MAX) / (float)RAND_MAX) * (max - min) + min] *)
Definition RandomValue (rg : t) : Rand float :=
  n <- GetRandomValue 0 RAND_MAX ;;
  ret (F32.add (F32.mul (F32.div (F32.of_Z n) (F32.of_Z RAND_MAX))
                        (F32.sub (max rg) (min rg)))
               (min rg)).

End Sampling.

End FloatRange.

Module IntRange.

Record t : Type := mk { min : Z; max : Z }.

Section Sampling.
Context {P : Platform}.

Definition RandomValue (rg : t) : Rand Z :=
  GetRandomValue (min rg) (max rg).

End Sampling.

End IntRange.

(** ** Emitter configuration *)

Module EmitterConfig.

Section Config.
Context {P : Platform}.

Record t : Type := mk {
  direction : Vector3;
  velocity : FloatRange.t;
  directionAngle : FloatRange.t;
  velocityAngle : FloatRange.t;
  offset : FloatRange.t;
  originAcceleration : FloatRange.t;
  age : FloatRange.t;
  burst : IntRange.t;
  capacity : Z;
  emissionRate : Z;
  origin : Vector3;
  externalAcceleration : Vector3;
  startColor : Color;
  endColor : Color;
  blendMode : BlendMode;
  model : Model;
  gravity : float;
  collision : bool
}.

Definition with_direction (cfg : t) (d : Vector3) : t :=
  mk d (velocity cfg) (directionAngle cfg) (velocityAngle cfg) (offset cfg)
     (originAcceleration cfg) (age cfg) (burst cfg) (capacity cfg)
     (emissionRate cfg) (origin cfg) (externalAcceleration cfg)
     (startColor cfg) (endColor cfg) (blendMode cfg) (model cfg)
     (gravity cfg) (collision cfg).

Definition with_origin (cfg : t) (o : Vector3) : t :=
  mk (direction cfg) (velocity cfg) (directionAngle cfg) (velocityAngle cfg)
     (offset cfg) (originAcceleration cfg) (age cfg) (burst cfg)
     (capacity cfg) (emissionRate cfg) o (externalAcceleration cfg)
     (startColor cfg) (endColor cfg) (blendMode cfg) (model cfg)
     (gravity cfg) (collision cfg).

End Config.

End EmitterConfig.

(** ** Particle *)

Module Particle.

Record t : Type := mk {
  origin : Vector3;
  position : Vector3;
  velocity : Vector3;
  externalAcceleration : Vector3;
  originAcceleration : float;
  age : float;
  ttl : float;
  scale : float;
  active : bool
}.

(** A value-initialised particle, as [std::vector::resize] creates it:
    every field zero, [active] false. *)
Definition default : t :=
  mk Vector3.zero Vector3.zero Vector3.zero Vector3.zero
     F32.zero F32.zero F32.zero F32.zero false.

Definition with_age (p : t) (a : float) : t :=
  mk (origin p) (position p) (velocity p) (externalAcceleration p)
     (originAcceleration p) a (ttl p) (scale p) (active p).

Definition with_active (p : t) (b : bool) : t :=
  mk (origin p) (position p) (velocity p) (externalAcceleration p)
     (originAcceleration p) (age p) (ttl p) (scale p) b.

(** [return age > ttl;] *)
Definition IsExpired (p : t) : bool := F32.gtb (age p) (ttl p).

Section Physics.
Context {P : Platform}.

(** Rotation about the Y axis by [angleY] degrees, then about the X axis
    by [angleX] degrees. *)
Definition Rotate (v : Vector3) (angleX angleY : float) : Vector3 :=
  let radConversion := DEG2RAD in
  let radY := F32.mul angleY radConversion in
  let rotatedY :=
    Vector3.mk
      (F32.add (F32.mul (cosf radY) (Vector3.x v))
               (F32.mul (sinf radY) (Vector3.z v)))
      (Vector3.y v)
      (F32.add (F32.mul (F32.opp (sinf radY)) (Vector3.x v))
               (F32.mul (cosf radY) (Vector3.z v))) in
  let radX := F32.mul angleX radConversion in
  Vector3.mk
    (Vector3.x rotatedY)
    (F32.sub (F32.mul (cosf radX) (Vector3.y rotatedY))
             (F32.mul (sinf radX) (Vector3.z rotatedY)))
    (F32.add (F32.mul (sinf radX) (Vector3.y rotatedY))
             (F32.mul (cosf radX) (Vector3.z rotatedY))).

(** [Init] assigns every field of the particle; the six samples are drawn
    in the order of the source's statements. *)
Definition Init (cfg : EmitterConfig.t) (p : t) : Rand t :=
  randomAngleX <- FloatRange.RandomValue (EmitterConfig.directionAngle cfg) ;;
  randomAngleY <- FloatRange.RandomValue (EmitterConfig.velocityAngle cfg) ;;
  let randomDir := Rotate (EmitterConfig.direction cfg) randomAngleX randomAngleY in
  speed <- FloatRange.RandomValue (EmitterConfig.velocity cfg) ;;
  off <- FloatRange.RandomValue (EmitterConfig.offset cfg) ;;
  acc <- FloatRange.RandomValue (EmitterConfig.originAcceleration cfg) ;;
  life <- FloatRange.RandomValue (EmitterConfig.age cfg) ;;
  ret (mk (EmitterConfig.origin cfg)
          (Vector3Add (EmitterConfig.origin cfg) (Vector3Scale randomDir off))
          (Vector3Scale randomDir speed)
          (EmitterConfig.externalAcceleration cfg)
          acc
          F32.zero
          life
          F32.one
          true).

(** Lines 78-81 of [Update]: the velocity after gravity, the attraction
    toward [origin] (the particle's own field) and the external
    acceleration. *)
Definition accelerate (dt : float) (cfg : EmitterConfig.t) (p : t) : Vector3 :=
  let v1 := Vector3.with_y (velocity p)
              (F32.sub (Vector3.y (velocity p))
                       (F32.mul (EmitterConfig.gravity cfg) dt)) in
  let toOrigin := Vector3Normalize (Vector3Subtract (origin p) (position p)) in
  let v2 := Vector3Add v1 (Vector3Scale toOrigin (F32.mul (originAcceleration p) dt)) in
  Vector3Add v2 (Vector3Scale (externalAcceleration p) dt).

(** Line 82: the position after integrating the new velocity. *)
Definition integrate (dt : float) (cfg : EmitterConfig.t) (p : t) : Vector3 :=
  Vector3Add (position p) (Vector3Scale (accelerate dt cfg p) dt).

(** Lines 84-87: the ground contact, on the integrated position [pos] and
    the velocity [vel]. *)
Definition collide (cfg : EmitterConfig.t) (pos vel : Vector3)
  : Vector3 * Vector3 :=
  if EmitterConfig.collision cfg && F32.leb (Vector3.y pos) F32.zero then
    (Vector3.with_y pos F32.zero,
     Vector3.with_y vel (F32.mul (Vector3.y vel) (F32.opp F32.half)))
  else (pos, vel).

Definition Update (dt : float) (cfg : EmitterConfig.t) (p : t) : t :=
  if negb (active p) then p
  else
    let p1 := with_age p (F32.add (age p) dt) in
    if IsExpired p1 then with_active p1 false
    else
      let (pos, vel) := collide cfg (integrate dt cfg p1) (accelerate dt cfg p1) in
      mk (origin p1) pos vel (externalAcceleration p1) (originAcceleration p1)
         (age p1) (ttl p1)
         (F32.div F32.one
            (F32.add (F32.mul (Vector3Distance pos (EmitterConfig.origin cfg))
                              F32.tenth)
                     F32.one))
         (active p1).

End Physics.

End Particle.

(** ** Rendering

    Drawing is observed as the sequence of calls made to the render
    backend. *)

Inductive RenderCall {P : Platform} : Type :=
| BeginBlendMode (mode : BlendMode)
| DrawModel (model : Model) (position : Vector3) (scale : float) (tint : Color)
| EndBlendMode.

(** ** Emitter *)

Module Emitter.

Section Pool.
Context {P : Platform}.

Record t : Type := mk {
  config : EmitterConfig.t;
  mustEmit : float;
  isEmitting : bool;
  particles : list Particle.t
}.

(** The constructor: the direction is normalised and the pool is resized
    to [capacity] value-initialised particles. *)
Definition make (cfg : EmitterConfig.t) : t :=
  mk (EmitterConfig.with_direction cfg
        (Vector3Normalize (EmitterConfig.direction cfg)))
     F32.zero
     false
     (repeat Particle.default (Z.to_nat (EmitterConfig.capacity cfg))).

(** Modelled from the spec: [Emitter::SetOrigin] is called by
    [ParticleSystem::SetOrigin] and documented in the README, but its body
    is not in the header; the spec has it update the live origin of the
    configuration, used by subsequent spawns. *)
Definition SetOrigin (newOrigin : Vector3) (e : t) : t :=
  mk (EmitterConfig.with_origin (config e) newOrigin)
     (mustEmit e) (isEmitting e) (particles e).

Definition Start (e : t) : t :=
  mk (config e) (mustEmit e) true (particles e).

Definition Stop (e : t) : t :=
  mk (config e) (mustEmit e) false (particles e).

(** The loop of [Burst] from slot [ps] on, [emitted] particles initialised
    so far.  [++emitted >= amount] compares a [size_t] with an [int], so
    [amount] is converted to [size_t]; the [return] leaves the remaining
    slots as they are. *)
Fixpoint Burst_loop (cfg : EmitterConfig.t) (amount : Z) (emitted : Z)
  (ps : list Particle.t) : Rand (list Particle.t) :=
  match ps with
  | [] => ret []
  | p :: rest =>
      if negb (Particle.active p) then
        p' <- Particle.Init cfg p ;;
        let emitted' := wrap64 (emitted + 1) in
        if wrap64 amount <=? emitted' then ret (p' :: rest)
        else
          rest' <- Burst_loop cfg amount emitted' rest ;;
          ret (p' :: rest')
      else
        rest' <- Burst_loop cfg amount emitted rest ;;
        ret (p :: rest')
  end.

Definition Burst (e : t) : Rand t :=
  amount <- IntRange.RandomValue (EmitterConfig.burst (config e)) ;;
  ps <- Burst_loop (config e) amount 0 (particles e) ;;
  ret (mk (config e) (mustEmit e) (isEmitting e) ps).

(** The variables that the lambda of [Update] captures by reference and
    writes: the local [emitNow] and [counter], and the member [mustEmit]. *)
Record frame : Type := mkframe {
  emitNow : Z;
  accumulator : float;
  counter : Z
}.

(** The body of the lambda, for one slot. *)
Definition visit (cfg : EmitterConfig.t) (emitting : bool) (dt : float)
  (p : Particle.t) (fr : frame) : Rand (Particle.t * frame) :=
  if Particle.active p then
    ret (Particle.Update dt cfg p,
         mkframe (emitNow fr) (accumulator fr) (wrap64 (counter fr + 1)))
  else if emitting && (0 <? emitNow fr) then
    p' <- Particle.Init cfg p ;;
    ret (Particle.Update dt cfg p',
         mkframe (wrap64 (emitNow fr - 1))
                 (F32.sub (accumulator fr) F32.one)
                 (wrap64 (counter fr + 1)))
  else ret (p, fr).

(** [std::for_each] over the pool, first slot first. *)
Fixpoint for_each (cfg : EmitterConfig.t) (emitting : bool) (dt : float)
  (ps : list Particle.t) (fr : frame) : Rand (list Particle.t * frame) :=
  match ps with
  | [] => ret ([], fr)
  | p :: rest =>
      r <- visit cfg emitting dt p fr ;;
      r' <- for_each cfg emitting dt rest (snd r) ;;
      ret (fst r :: fst r', snd r')
  end.

(** [Update] returns the counter and leaves the emitter in its new state. *)
Definition Update (dt : float) (e : t) : Rand (Z * t) :=
  let mustEmit1 :=
    if isEmitting e then
      F32.add (mustEmit e)
              (F32.mul dt (F32.of_Z (EmitterConfig.emissionRate (config e))))
    else mustEmit e in
  let emitNow0 := if isEmitting e then F32.to_size_t mustEmit1 else 0 in
  r <- for_each (config e) (isEmitting e) dt (particles e)
         (mkframe emitNow0 mustEmit1 0) ;;
  ret (counter (snd r),
       mk (config e) (accumulator (snd r)) (isEmitting e) (fst r)).

(** One channel of [LinearFade]: [(c2 - c1) * fraction + c1], the
    difference taken on [int], converted to [unsigned char]. *)
Definition fade_channel (c1 c2 : Z) (fraction : float) : Z :=
  F32.to_uchar (F32.add (F32.mul (F32.of_Z (c2 - c1)) fraction) (F32.of_Z c1)).

Definition LinearFade (c1 c2 : Color) (fraction : float) : Color :=
  Color.mk (fade_channel (Color.r c1) (Color.r c2) fraction)
           (fade_channel (Color.g c1) (Color.g c2) fraction)
           (fade_channel (Color.b c1) (Color.b c2) fraction)
           (fade_channel (Color.a c1) (Color.a c2) fraction).

(** The tint [Draw] passes to [DrawModel] for the particle [p]. *)
Definition tint (cfg : EmitterConfig.t) (p : Particle.t) : Color :=
  LinearFade (EmitterConfig.startColor cfg) (EmitterConfig.endColor cfg)
             (F32.div (Particle.age p) (Particle.ttl p)).

(** The call [Draw] makes for one slot, none when the slot is inactive. *)
Definition Draw_slot (cfg : EmitterConfig.t) (p : Particle.t)
  : list RenderCall :=
  if Particle.active p then
    let translation :=
      MatrixTranslate (Vector3.x (Particle.position p))
                      (Vector3.y (Particle.position p))
                      (Vector3.z (Particle.position p)) in
    let scaling :=
      MatrixScale (Particle.scale p) (Particle.scale p) (Particle.scale p) in
    let modelCopy :=
      Model_set_transform (EmitterConfig.model cfg)
                          (MatrixMultiply scaling translation) in
    [DrawModel modelCopy (Particle.position p) F32.one (tint cfg p)]
  else [].

Definition Draw (e : t) : list RenderCall :=
  BeginBlendMode (EmitterConfig.blendMode (config e))
  :: flat_map (Draw_slot (config e)) (particles e) ++ [EndBlendMode].

(** The number of active slots of a pool. *)
Definition activeCount (ps : list Particle.t) : Z :=
  Z.of_nat (length (filter Particle.active ps)).

Definition inactiveCount (ps : list Particle.t) : Z :=
  Z.of_nat (length (filter (fun p => negb (Particle.active p)) ps)).

End Pool.

End Emitter.

(** ** Particle system *)

Module ParticleSystem.

Section System.
Context {P : Platform}.

Definition t : Type := list Emitter.t.

Definition Register (emitter : Emitter.t) (s : t) : t := s ++ [emitter].

Definition SetOrigin (newOrigin : Vector3) (s : t) : t :=
  map (Emitter.SetOrigin newOrigin) s.

Definition Start (s : t) : t := map Emitter.Start s.

Definition Stop (s : t) : t := map Emitter.Stop s.

Fixpoint Burst (s : t) : Rand t :=
  match s with
  | [] => ret []
  | e :: rest =>
      e' <- Emitter.Burst e ;;
      rest' <- Burst rest ;;
      ret (e' :: rest')
  end.

(** [counter += e->Update(dt)] over the emitters, first emitter first. *)
Fixpoint Update_from (dt : float) (s : t) (counter : Z) : Rand (Z * t) :=
  match s with
  | [] => ret (counter, [])
  | e :: rest =>
      r <- Emitter.Update dt e ;;
      r' <- Update_from dt rest (wrap64 (counter + fst r)) ;;
      ret (fst r', snd r :: snd r')
  end.

Definition Update (dt : float) (s : t) : Rand (Z * t) := Update_from dt s 0.

Definition Draw (s : t) : list RenderCall := flat_map Emitter.Draw s.

(** The values that the emitters' [Update] calls return inside
    [ParticleSystem::Update], first emitter first. *)
Fixpoint returned (dt : float) (s : t) : Rand (list Z) :=
  match s with
  | [] => ret []
  | e :: rest =>
      r <- Emitter.Update dt e ;;
      ns <- returned dt rest ;;
      ret (fst r :: ns)
  end.

End System.

End ParticleSystem.

(** ** Call sequences on one emitter

    A client drives an emitter through its public operations; [run]
    executes a sequence of calls and collects, in order, the values that
    the [Update] calls returned. *)

Inductive Op : Type :=
| OpSetOrigin (newOrigin : Vector3)
| OpStart
| OpStop
| OpBurst
| OpUpdate (dt : float).

Section Driver.
Context {P : Platform}.

Definition step (op : Op) (e : Emitter.t) : Rand (list Z * Emitter.t) :=
  match op with
  | OpSetOrigin o => ret ([], Emitter.SetOrigin o e)
  | OpStart => ret ([], Emitter.Start e)
  | OpStop => ret ([], Emitter.Stop e)
  | OpBurst => e' <- Emitter.Burst e ;; ret ([], e')
  | OpUpdate dt => r <- Emitter.Update dt e ;; ret ([fst r], snd r)
  end.

Fixpoint run (ops : list Op) (e : Emitter.t) : Rand (list Z * Emitter.t) :=
  match ops with
  | [] => ret ([], e)
  | op :: rest =>
      r <- step op e ;;
      r' <- run rest (snd r) ;;
      ret (fst r ++ fst r', snd r')
  end.

End Driver.

(** [idle emitting ops]: the sequence never calls [Burst], and every
    [Update] in it runs while [isEmitting] is false, [emitting] being the
    flag before the first call. *)
Fixpoint idle (emitting : bool) (ops : list Op) : bool :=
  match ops with
  | [] => true
  | OpSetOrigin _ :: rest => idle emitting rest
  | OpStart :: rest => idle true rest
  | OpStop :: rest => idle false rest
  | OpBurst :: _ => false
  | OpUpdate _ :: rest => negb emitting && idle emitting rest
  end.

(** ** A concrete platform

    An instance on which the definitions run: a linear congruential
    random source with raylib's reduction of the raw value to
    [[min, max]], low-order polynomial stand-ins for [cosf] and [sinf],
    and 4x4 matrices as rows of floats, a model being represented by its
    transform.  The theorems below hold for every platform; this one
    serves the examples. *)

Module Sample.

Definition next (g : Z) : Z := (1103515245 * g + 12345) mod 2 ^ 31.

Definition lcg_GetRandomValue (lo hi : Z) (g : Z) : Z * Z :=
  let lo' := Z.min lo hi in
  let hi' := Z.max lo hi in
  (next g mod (hi' - lo' + 1) + lo', next g).

Definition poly_cosf (a : float) : float :=
  F32.sub F32.one (F32.mul (F32.mul a a) F32.half).

Definition poly_sinf (a : float) : float := a.

Definition Matrix4 : Type := list (list float).

Definition translate (x y z : float) : Matrix4 :=
  [[F32.one; F32.zero; F32.zero; x];
   [F32.zero; F32.one; F32.zero; y];
   [F32.zero; F32.zero; F32.one; z];
   [F32.zero; F32.zero; F32.zero; F32.one]].

Definition scaling (x y z : float) : Matrix4 :=
  [[x; F32.zero; F32.zero; F32.zero];
   [F32.zero; y; F32.zero; F32.zero];
   [F32.zero; F32.zero; z; F32.zero];
   [F32.zero; F32.zero; F32.zero; F32.one]].

Definition dot (u v : list float) : float :=
  fold_left F32.add (map (fun ab => F32.mul (fst ab) (snd ab)) (combine u v))
            F32.zero.

Definition column (m : Matrix4) (j : nat) : list float :=
  map (fun row => nth j row F32.zero) m.

Definition multiply (a b : Matrix4) : Matrix4 :=
  map (fun row => map (fun j => dot row (column b j)) (seq 0 4)) a.

#[export] Instance platform : Platform := {|
  RNG := Z;
  GetRandomValue := lcg_GetRandomValue;
  RAND_MAX := 2147483647;
  cosf := poly_cosf;
  sinf := poly_sinf;
  Matrix := Matrix4;
  MatrixTranslate := translate;
  MatrixScale := scaling;
  MatrixMultiply := multiply;
  Model := Matrix4;
  Model_set_transform := fun _ m => m
|}.

Definition f (n : Z) : float := F32.of_Z n.

Definition v3 (x y z : Z) : Vector3 := Vector3.mk (f x) (f y) (f z).

Definition range (lo hi : Z) : FloatRange.t := FloatRange.mk (f lo) (f hi).

(** An emitter configuration in the style of the demo's fire layer, with
    a given capacity, emission rate and burst range. *)
Definition config (capacity emissionRate burstMin burstMax : Z)
  : EmitterConfig.t :=
  EmitterConfig.mk (v3 0 1 0) (range 1 2) (range (-10) 10) (range (-5) 5)
    (range 0 1) (range 0 1) (range 1 2) (IntRange.mk burstMin burstMax)
    capacity emissionRate (v3 0 (-2) 0) (v3 0 0 0)
    (Color.mk 255 150 0 255) (Color.mk 255 50 0 0) BLEND_ADDITIVE
    (scaling F32.one F32.one F32.one) F32.zero false.

(** An active particle at rest at [position], attracted toward [origin]
    with unit strength, of age 0 and lifetime [ttl]. *)
Definition particle (origin position : Vector3) (ttl : Z) : Particle.t :=
  Particle.mk origin position (v3 0 0 0) (v3 0 0 0) F32.one F32.zero (f ttl)
    F32.one true.

End Sample.

(** ** Reference outcomes

    What the traversals are compared with in the properties below. *)

(** The activity flags of a pool after its first [n] inactive slots, in
    ascending order, have been activated. *)
Fixpoint activate_first (n : nat) (flags : list bool) : list bool :=
  match flags with
  | [] => []
  | b :: rest =>
      match n with
      | O => flags
      | S n' =>
          if b then true :: activate_first n rest
          else true :: activate_first n' rest
      end
  end.

(** [forallb] over the integers [0 .. n-1]. *)
Definition all_below (n : Z) (f : Z -> bool) : bool :=
  forallb f (map Z.of_nat (seq 0 (Z.to_nat n))).



(** A zero of either sign added to the channel [c] converts back to [c]. *)
Definition fade_zero_sum_ok (c : Z) : bool :=
  (F32.to_uchar (F32.add (S754_zero false) (F32.of_Z c)) =? c)
  && (F32.to_uchar (F32.add (S754_zero true) (F32.of_Z c)) =? c).

Section Outcomes.
Context {P : Platform}.

(** The number of slots the traversal of [Update] initialises: the spawn
    budget, as far as inactive slots are available. *)
Definition spawned (emitting : bool) (budget : Z) (ps : list Particle.t) : Z :=
  if emitting then Z.min budget (Emitter.inactiveCount ps) else 0.

(** The number of slots a [Burst] loop initialises, [emitted] being the
    count on entry. *)
Definition activated (amount emitted : Z) (ps : list Particle.t) : Z :=
  Z.min (Z.max 1 (wrap64 amount - emitted)) (Emitter.inactiveCount ps).

(** The spawn budget [emitNow] that [Update] computes before the
    traversal. *)
Definition spawnBudget (dt : float) (e : Emitter.t) : Z :=
  if Emitter.isEmitting e then
    F32.to_size_t
      (F32.add (Emitter.mustEmit e)
         (F32.mul dt (F32.of_Z (EmitterConfig.emissionRate (Emitter.config e)))))
  else 0.

(** An active particle that the step [dt] expires. *)
Definition expires (dt : float) (p : Particle.t) : bool :=
  Particle.active p
  && Particle.IsExpired (Particle.with_age p (F32.add (Particle.age p) dt)).

(** The accumulated emission [dt * emissionRate] of one frame. *)
Definition emission (dt : float) (e : Emitter.t) : float :=
  F32.mul dt (F32.of_Z (EmitterConfig.emissionRate (Emitter.config e))).



(** The attraction term of the velocity as C2 words it: directed from
    the particle's position toward [target], scaled by
    [originAcceleration * dt]. *)
Definition attraction_toward (target : Vector3) (dt : float) (p : Particle.t)
  : Vector3 :=
  Vector3Scale (Vector3Normalize (Vector3Subtract target (Particle.position p)))
               (F32.mul (Particle.originAcceleration p) dt).

(** The velocity after lines 78-81 when the attraction is directed
    toward [target]. *)
Definition velocity_toward (target : Vector3) (dt : float)
  (cfg : EmitterConfig.t) (p : Particle.t) : Vector3 :=
  Vector3Add
    (Vector3Add
       (Vector3.with_y (Particle.velocity p)
          (F32.sub (Vector3.y (Particle.velocity p))
                   (F32.mul (EmitterConfig.gravity cfg) dt)))
       (attraction_toward target dt p))
    (Vector3Scale (Particle.externalAcceleration p) dt).

End Outcomes.

(** ** Fixtures

    Concrete particles, configurations and call sequences on the sample
    platform, for the examples that close the file. *)

Module Fixture.
Import Sample.

(** The demo's ember layer in small: ground collision enabled, no
    gravity, capacity 4, one particle per second. *)
Definition ground : EmitterConfig.t :=
  EmitterConfig.mk (v3 0 1 0) (range 1 2) (range (-10) 10) (range (-5) 5)
    (range 0 1) (range 0 0) (range 5 15) (IntRange.mk 0 0)
    4 1 (v3 0 0 0) (v3 0 0 0)
    (Color.mk 255 100 0 255) (Color.mk 255 100 0 0) BLEND_ADDITIVE
    (scaling F32.one F32.one F32.one) F32.zero true.

(** A particle one unit above the ground, falling at three units per
    second, with no attraction. *)
Definition falling : Particle.t :=
  Particle.mk (v3 0 1 0) (v3 0 1 0) (v3 0 (-3) 0) (v3 0 0 0)
    F32.zero F32.zero (f 10) F32.one true.

(** A particle spawned at the origin [(0,0,0)] that has moved to
    [(3,0,0)], and an emitter whose origin has since been set to
    [(6,0,0)]. *)
Definition drifted : Particle.t := particle (v3 0 0 0) (v3 3 0 0) 10.

Definition moved : EmitterConfig.t :=
  EmitterConfig.with_origin (config 4 1 0 0) (v3 6 0 0).

(** A particle of age 0 and lifetime 2. *)
Definition shortlived : Particle.t := particle (v3 0 0 0) (v3 0 0 0) 2.

(** A stopped emitter whose pool holds [shortlived] and a free slot. *)
Definition holding : Emitter.t :=
  Emitter.mk (config 2 1 0 0) F32.zero false [shortlived; Particle.default].

Definition calls : list Op :=
  [OpStart; OpUpdate F32.tenth; OpBurst; OpSetOrigin (v3 1 0 0);
   OpUpdate F32.one; OpStop; OpUpdate F32.one].

Definition idle_calls : list Op :=
  [OpStart; OpStop; OpUpdate F32.tenth; OpSetOrigin (v3 1 0 0);
   OpUpdate F32.one].



(** The spec's scenario: capacity 10, rate 100, started. *)
Definition saturating : Emitter.t := Emitter.Start (Emitter.make (config 10 100 0 0)).


(** A system of two emitters: [holding] and [saturating]. *)
Definition pair : ParticleSystem.t := [holding; saturating].

End Fixture.

(** ** Observations on pools, systems and render calls

    What the properties of [Update], [Burst] and [Draw] beyond the single
    call are stated with. *)

(** Zero or finite, of either sign: neither an infinity nor a NaN. *)
Definition is_number (f : float) : bool :=
  match f with
  | S754_zero _ | S754_finite _ _ _ => true
  | _ => false
  end.

(** A zero of either sign. *)
Definition is_zero (f : float) : bool :=
  match f with
  | S754_zero _ => true
  | _ => false
  end.

(** The same float, or two zeros that may differ in sign. *)
Definition same_value (a b : float) : Prop :=
  a = b \/ (is_zero a = true /\ is_zero b = true).

Section Observations.
Context {P : Platform}.

(** The state of the random source after [n] calls of
    [GetRandomValue(0, RAND_MAX)], the call [FloatRange::RandomValue]
    makes. *)
Definition draws (n : nat) (g : RNG) : RNG :=
  Nat.iter n (fun g0 => snd (GetRandomValue 0 RAND_MAX g0)) g.

(** [--mustEmit], [n] times. *)
Definition decrements (n : nat) (a : float) : float :=
  Nat.iter n (fun x => F32.sub x F32.one) a.

(** A particle through a sequence of [Update] calls, each with its elapsed
    time and the configuration of its emitter at that time. *)
Definition Particle_steps (steps : list (float * EmitterConfig.t))
  (p : Particle.t) : Particle.t :=
  fold_left (fun q s => Particle.Update (fst s) (snd s) q) steps p.

(** What one [Emitter::Update] can do to a slot: step the particle it
    holds, re-initialise a free slot and step the new particle, or leave
    a free slot as it is. *)
Inductive slot_step (dt : float) (cfg : EmitterConfig.t)
  : Particle.t -> Particle.t -> Prop :=
| slot_stepped (p : Particle.t) :
    Particle.active p = true ->
    slot_step dt cfg p (Particle.Update dt cfg p)
| slot_spawned (p : Particle.t) (g : RNG) :
    Particle.active p = false ->
    slot_step dt cfg p (Particle.Update dt cfg (fst (Particle.Init cfg p g)))
| slot_kept (p : Particle.t) :
    Particle.active p = false ->
    slot_step dt cfg p p.

(** A particle that is within its lifetime and, where the configuration
    enables collision, not below the ground plane. *)
Definition settled (cfg : EmitterConfig.t) (p : Particle.t) : bool :=
  negb (Particle.IsExpired p)
  && (negb (EmitterConfig.collision cfg)
      || negb (F32.ltb (Vector3.y (Particle.position p)) F32.zero)).

(** [Emitter::Update] as it acts on an emitter that spawns nothing: the
    accumulator [acc] is stored and every slot is stepped. *)
Definition stepped (dt : float) (acc : float) (e : Emitter.t) : Emitter.t :=
  Emitter.mk (Emitter.config e) acc (Emitter.isEmitting e)
             (map (Particle.Update dt (Emitter.config e)) (Emitter.particles e)).

(** Two states of one emitter: same configuration, same emission flag,
    same number of slots. *)
Definition same_shape (e e' : Emitter.t) : Prop :=
  Emitter.config e' = Emitter.config e
  /\ Emitter.isEmitting e' = Emitter.isEmitting e
  /\ length (Emitter.particles e') = length (Emitter.particles e).

(** The slots and the active particles of a whole system. *)
Definition totalSlots (s : ParticleSystem.t) : Z :=
  fold_right Z.add 0 (map (fun e => Z.of_nat (length (Emitter.particles e))) s).

Definition totalActive (s : ParticleSystem.t) : Z :=
  fold_right Z.add 0 (map (fun e => Emitter.activeCount (Emitter.particles e)) s).

(** The positions handed to [DrawModel], in the order of the calls. *)
Definition drawnPositions (calls : list RenderCall) : list Vector3 :=
  flat_map (fun c => match c with
                     | DrawModel _ position _ _ => [position]
                     | _ => []
                     end) calls.

(** The blend-mode discipline of a sequence of render calls: a
    [BeginBlendMode] only outside a blend section, [DrawModel] and
    [EndBlendMode] only inside one, and no section left open at the end.
    [inside] tells whether a section is open before the first call. *)
Fixpoint bracketed (inside : bool) (calls : list RenderCall) : bool :=
  match calls with
  | [] => negb inside
  | BeginBlendMode _ :: rest => negb inside && bracketed true rest
  | DrawModel _ _ _ _ :: rest => inside && bracketed inside rest
  | EndBlendMode :: rest => inside && bracketed false rest
  end.

End Observations.

(** ** The demo program

    [main] of the demo registers three emitters (fire, smoke, embers) in
    one system, starts it, and then runs one [Update] and one [Draw] per
    frame until the window closes.  The models are loaded from meshes by
    raylib and are parameters here; a run is given by the frame times
    that [GetFrameTime] returned. *)

Module Demo.

Section Main.
Context {P : Platform}.
Variables fireModel smokeModel emberModel : Model.

(** The decimal literal [n/d] with [n] and [d] exact in binary32: the
    correctly rounded quotient. *)
Definition lit (n d : Z) : float := F32.div (F32.of_Z n) (F32.of_Z d).

Definition vec (x y z : Z) : Vector3 :=
  Vector3.mk (F32.of_Z x) (F32.of_Z y) (F32.of_Z z).

Definition fireEmitterConfig : EmitterConfig.t :=
  EmitterConfig.mk (vec 0 1 0)
    (FloatRange.mk (F32.of_Z 1) (F32.of_Z 2))
    (FloatRange.mk (F32.of_Z (-10)) (F32.of_Z 10))
    (FloatRange.mk (F32.of_Z (-5)) (F32.of_Z 5))
    (FloatRange.mk (F32.of_Z 0) (lit 1 2))
    (FloatRange.mk (lit 1 5) (lit 1 2))
    (FloatRange.mk (lit 1 2) (lit 3 2))
    (IntRange.mk 0 0)
    500 200 (vec 0 (-2) 0) (vec 0 0 0)
    (Color.mk 255 150 0 255) (Color.mk 255 50 0 0)
    BLEND_ADDITIVE fireModel (F32.of_Z 0) false.

Definition smokeEmitterConfig : EmitterConfig.t :=
  EmitterConfig.mk (vec 0 1 0)
    (FloatRange.mk (lit 1 2) (lit 3 2))
    (FloatRange.mk (F32.of_Z (-20)) (F32.of_Z 20))
    (FloatRange.mk (F32.of_Z (-10)) (F32.of_Z 10))
    (FloatRange.mk (F32.of_Z 0) (lit 1 2))
    (FloatRange.mk (F32.of_Z 0) (F32.of_Z 0))
    (FloatRange.mk (F32.of_Z 2) (F32.of_Z 4))
    (IntRange.mk 0 0)
    300 100 (vec 0 (-2) 0) (vec 0 0 0)
    (Color.mk 100 100 100 150) (Color.mk 50 50 50 0)
    BLEND_ALPHA smokeModel (F32.of_Z 0) false.

Definition emberEmitterConfig : EmitterConfig.t :=
  EmitterConfig.mk (vec 0 1 0)
    (FloatRange.mk (lit 3 2) (F32.of_Z 3))
    (FloatRange.mk (F32.of_Z (-15)) (F32.of_Z 15))
    (FloatRange.mk (F32.of_Z (-10)) (F32.of_Z 10))
    (FloatRange.mk (F32.of_Z 0) (lit 1 2))
    (FloatRange.mk (F32.of_Z 0) (F32.of_Z 0))
    (FloatRange.mk (F32.of_Z 5) (F32.of_Z 15))
    (IntRange.mk 0 0)
    100 50 (vec 0 (-2) 0) (vec 0 0 0)
    (Color.mk 255 100 0 255) (Color.mk 255 100 0 0)
    BLEND_ADDITIVE emberModel (lit 1 10) true.

(** The system as [main] has it when the frame loop starts. *)
Definition fireEffectSystem : ParticleSystem.t :=
  ParticleSystem.Start
    (ParticleSystem.Register (Emitter.make emberEmitterConfig)
       (ParticleSystem.Register (Emitter.make smokeEmitterConfig)
          (ParticleSystem.Register (Emitter.make fireEmitterConfig) []))).

End Main.

Section Loop.
Context {P : Platform}.

(** The frame loop on the particle system: per frame, the value
    [Update] returned and the calls [Draw] made. *)
Fixpoint frames (dts : list float) (s : ParticleSystem.t)
  : Rand (list (Z * list RenderCall)) :=
  match dts with
  | [] => ret []
  | dt :: rest =>
      r <- ParticleSystem.Update dt s ;;
      fs <- frames rest (snd r) ;;
      ret ((fst r, ParticleSystem.Draw (snd r)) :: fs)
  end.

End Loop.

End Demo.

(** Exposes the pairs that the random-source computations return. *)
Ltac rand_cases :=
  repeat match goal with
         | |- context [match ?c with (_, _) => _ end] => destruct c
         end.

(** * Properties *)

(** ** Machine integers *)

Lemma wrap64_small (n : Z) : 0 <= n < 2 ^ 64 -> wrap64 n = n.
Proof. intros H. unfold wrap64. now apply Z.mod_small. Qed.

Lemma wrap64_range (n : Z) : 0 <= wrap64 n < 2 ^ 64.
Proof. unfold wrap64. apply Z.mod_pos_bound. lia. Qed.

Lemma wrap64_le (n : Z) : 0 <= n -> wrap64 n <= n.
Proof. intros H. unfold wrap64. apply Z.mod_le; lia. Qed.

Lemma wrap64_add_l (a b : Z) : wrap64 (wrap64 a + b) = wrap64 (a + b).
Proof. unfold wrap64. apply Zplus_mod_idemp_l. Qed.

Lemma to_size_t_range (x : float) : 0 <= F32.to_size_t x < 2 ^ 64.
Proof.
  unfold F32.to_size_t. destruct (F32.trunc x).
  - apply Z.mod_pos_bound. lia.
  - lia.
Qed.

(** ** Comparisons of binary32 values *)

Lemma SFcompare_Eq_sym (a b : float) :
  SFcompare a b = Some Eq -> SFcompare b a = Some Eq.
Proof.
  destruct a as [sa | sa | | sa ma ea], b as [sb | sb | | sb mb eb];
    simpl; try discriminate; try reflexivity;
    try (destruct sa; discriminate); try (destruct sb; discriminate).
  - destruct sa, sb; try discriminate; reflexivity.
  - destruct sa, sb; try discriminate.
    + destruct (ea ?= eb) eqn:He; try discriminate.
      apply Z.compare_eq in He. subst eb. intros H. injection H as H.
      rewrite Z.compare_refl.
      destruct (Pos.compare_cont Eq ma mb) eqn:Hm; try discriminate.
      apply Pos.compare_eq in Hm. subst mb.
      change (Pos.compare_cont Eq ma ma) with (Pos.compare ma ma).
      now rewrite Pos.compare_refl.
    + destruct (ea ?= eb) eqn:He; try discriminate.
      apply Z.compare_eq in He. subst eb. intros H. injection H as H.
      rewrite Z.compare_refl.
      apply Pos.compare_eq in H. subst mb.
      change (Pos.compare_cont Eq ma ma) with (Pos.compare ma ma).
      now rewrite Pos.compare_refl.
Qed.

Lemma gtb_false_of_eqb (a b : float) : F32.eqb a b = true -> F32.gtb a b = false.
Proof.
  unfold F32.eqb, F32.gtb, F32.ltb, SFeqb, SFltb. intros H.
  destruct (SFcompare a b) as [[| |]|] eqn:Hc; try discriminate.
  now rewrite (SFcompare_Eq_sym a b Hc).
Qed.

Lemma SFcompare_refl (a : float) : SFcompare a a = Some Eq \/ SFcompare a a = None.
Proof.
  destruct a as [s | s | | s m e]; simpl; auto.
  - left. now destruct s.
  - left. rewrite Z.compare_refl.
    change (Pos.compare_cont Eq m m) with (Pos.compare m m).
    rewrite Pos.compare_refl. now destruct s.
Qed.

Lemma gtb_irrefl (a : float) : F32.gtb a a = false.
Proof.
  unfold F32.gtb, F32.ltb, SFltb.
  now destruct (SFcompare_refl a) as [-> | ->].
Qed.


(** ** One particle *)

Section ParticleProperties.
Context {P : Platform}.

Lemma Particle_Update_inactive (dt : float) (cfg : EmitterConfig.t) (p : Particle.t) :
  Particle.active p = false -> Particle.Update dt cfg p = p.
Proof.
  intros Hp. unfold Particle.Update. now rewrite Hp.
Qed.

Lemma Particle_Update_never_activates (dt : float) (cfg : EmitterConfig.t) (p : Particle.t) :
  Particle.active (Particle.Update dt cfg p) = true -> Particle.active p = true.
Proof.
  unfold Particle.Update.
  destruct (Particle.active p) eqn:Hp; simpl; [reflexivity | now rewrite Hp].
Qed.

Lemma Particle_Init_active (cfg : EmitterConfig.t) (p : Particle.t) (g : RNG) :
  Particle.active (fst (Particle.Init cfg p g)) = true.
Proof.
  unfold Particle.Init, FloatRange.RandomValue, bind, ret.
  rand_cases. reflexivity.
Qed.

Lemma Particle_Init_origin cfg p g :
  Particle.origin (fst (Particle.Init cfg p g)) = EmitterConfig.origin cfg.
Proof.
  unfold Particle.Init, FloatRange.RandomValue, bind, ret.
  rand_cases. reflexivity.
Qed.

Lemma Particle_Update_expired dt cfg p :
  Particle.active p = true ->
  Particle.IsExpired (Particle.with_age p (F32.add (Particle.age p) dt)) = true ->
  Particle.Update dt cfg p
  = Particle.mk (Particle.origin p) (Particle.position p) (Particle.velocity p)
      (Particle.externalAcceleration p) (Particle.originAcceleration p)
      (F32.add (Particle.age p) dt) (Particle.ttl p) (Particle.scale p) false.
Proof.
  intros Ha He. unfold Particle.Update. rewrite Ha. simpl negb. cbv iota zeta.
  rewrite He. reflexivity.
Qed.

Lemma Particle_Update_alive dt cfg p :
  Particle.active p = true ->
  Particle.IsExpired (Particle.with_age p (F32.add (Particle.age p) dt)) = false ->
  let p1 := Particle.with_age p (F32.add (Particle.age p) dt) in
  let pv := Particle.collide cfg (Particle.integrate dt cfg p1)
                             (Particle.accelerate dt cfg p1) in
  Particle.Update dt cfg p
  = Particle.mk (Particle.origin p) (fst pv) (snd pv)
      (Particle.externalAcceleration p) (Particle.originAcceleration p)
      (F32.add (Particle.age p) dt) (Particle.ttl p)
      (F32.div F32.one
         (F32.add (F32.mul (Vector3Distance (fst pv) (EmitterConfig.origin cfg))
                           F32.tenth) F32.one))
      true.
Proof.
  intros Ha He. cbv zeta. unfold Particle.Update. rewrite Ha. simpl negb. cbv iota zeta.
  rewrite He.
  destruct (Particle.collide cfg _ _) as [pos vel]. simpl. now rewrite Ha.
Qed.

Lemma Particle_Update_expires dt cfg p :
  expires dt p = true -> Particle.active (Particle.Update dt cfg p) = false.
Proof.
  unfold expires. intros H. apply andb_true_iff in H as [Ha He].
  unfold Particle.Update. rewrite Ha, He. reflexivity.
Qed.

Lemma Particle_Update_active_le dt cfg p :
  (if Particle.active (Particle.Update dt cfg p) then 1 else 0)
  <= (if Particle.active p then 1 else 0).
Proof.
  destruct (Particle.active (Particle.Update dt cfg p)) eqn:H.
  - now rewrite (Particle_Update_never_activates _ _ _ H).
  - destruct (Particle.active p); lia.
Qed.

(** C5: expiry is the strict comparison [age > ttl].  A particle whose age
    equals its lifetime is not expired; a step that brings the age exactly
    to the lifetime leaves the particle active; and a step that brings the
    age above the lifetime only records the new age and clears [active]:
    origin, position, velocity, accelerations, lifetime and scale are those
    before the step. *)
Theorem expiry_is_strict (dt : float) (cfg : EmitterConfig.t) (p : Particle.t) :
  Particle.active p = true ->
  let p1 := Particle.with_age p (F32.add (Particle.age p) dt) in
  Particle.IsExpired p = F32.ltb (Particle.ttl p) (Particle.age p)
  /\ (F32.eqb (Particle.age p) (Particle.ttl p) = true ->
      Particle.IsExpired p = false)
  /\ (Particle.age p = Particle.ttl p -> Particle.IsExpired p = false)
  /\ (F32.eqb (Particle.age p1) (Particle.ttl p1) = true ->
      Particle.active (Particle.Update dt cfg p) = true)
  /\ (Particle.IsExpired p1 = true ->
      Particle.Update dt cfg p
      = Particle.mk (Particle.origin p) (Particle.position p)
          (Particle.velocity p) (Particle.externalAcceleration p)
          (Particle.originAcceleration p) (F32.add (Particle.age p) dt)
          (Particle.ttl p) (Particle.scale p) false).
Proof.
  intros Ha. cbv zeta. repeat split.
  - intros H. unfold Particle.IsExpired. now apply gtb_false_of_eqb.
  - intros H. unfold Particle.IsExpired. rewrite H. apply gtb_irrefl.
  - intros H. apply gtb_false_of_eqb in H.
    fold (Particle.IsExpired (Particle.with_age p (F32.add (Particle.age p) dt))) in H.
    pose proof (Particle_Update_alive dt cfg p Ha H) as Hu. cbv zeta in Hu.
    rewrite Hu. reflexivity.
  - intros H. now apply Particle_Update_expired.
Qed.

(** C6: on a step that does not expire the particle, with [pos] and [vel]
    the position and velocity after integration: when collision is enabled
    and [pos.y <= 0], the new position is [pos] with its height set to 0
    and the new velocity is [vel] with its vertical component multiplied
    by [-0.5]; when collision is enabled and the height is not at or below
    0, or when collision is disabled, position and velocity are [pos] and
    [vel] unchanged. *)
Theorem ground_collision (dt : float) (cfg : EmitterConfig.t) (p : Particle.t) :
  Particle.active p = true ->
  let p1 := Particle.with_age p (F32.add (Particle.age p) dt) in
  Particle.IsExpired p1 = false ->
  let pos := Particle.integrate dt cfg p1 in
  let vel := Particle.accelerate dt cfg p1 in
  let q := Particle.Update dt cfg p in
  (EmitterConfig.collision cfg = true -> F32.leb (Vector3.y pos) F32.zero = true ->
   Particle.position q = Vector3.mk (Vector3.x pos) F32.zero (Vector3.z pos)
   /\ Particle.velocity q
      = Vector3.mk (Vector3.x vel)
                   (F32.mul (Vector3.y vel) (S754_finite true 8388608 (-24)))
                   (Vector3.z vel))
  /\ (EmitterConfig.collision cfg = true -> F32.leb (Vector3.y pos) F32.zero = false ->
      Particle.position q = pos /\ Particle.velocity q = vel)
  /\ (EmitterConfig.collision cfg = false ->
      Particle.position q = pos /\ Particle.velocity q = vel).
Proof.
  intros Ha p1 He pos vel q.
  pose proof (Particle_Update_alive dt cfg p Ha He) as Hu. cbv zeta in Hu.
  subst q. rewrite Hu. fold p1. fold pos. fold vel. cbn [Particle.position Particle.velocity].
  unfold Particle.collide.
  split; [|split].
  - intros Hc Hy. rewrite Hc, Hy. split; reflexivity.
  - intros Hc Hy. rewrite Hc, Hy. split; reflexivity.
  - intros Hc. rewrite Hc. split; reflexivity.
Qed.

(** C2, as the code has it: the attraction of a step that does not expire
    the particle is directed from the particle's position toward the
    origin recorded in the particle, which [Init] copies from the
    configuration at spawn time and [Update] never changes; the velocity
    and the position after the step are the same whatever origin the
    configuration holds at the time of the step. *)
Theorem attraction_target_frozen_at_spawn
  (dt : float) (cfg : EmitterConfig.t) (p : Particle.t) (o : Vector3) :
  Particle.active p = true ->
  let p1 := Particle.with_age p (F32.add (Particle.age p) dt) in
  Particle.IsExpired p1 = false ->
  let q := Particle.Update dt cfg p in
  let q' := Particle.Update dt (EmitterConfig.with_origin cfg o) p in
  Particle.accelerate dt cfg p1 = velocity_toward (Particle.origin p) dt cfg p1
  /\ Particle.velocity q
     = snd (Particle.collide cfg (Particle.integrate dt cfg p1)
              (velocity_toward (Particle.origin p) dt cfg p1))
  /\ Particle.velocity q' = Particle.velocity q
  /\ Particle.position q' = Particle.position q
  /\ Particle.origin q = Particle.origin p
  /\ (forall p0 g, Particle.origin (fst (Particle.Init cfg p0 g))
                   = EmitterConfig.origin cfg).
Proof.
  intros Ha p1 He q q'.
  pose proof (Particle_Update_alive dt cfg p Ha He) as Hu.
  pose proof (Particle_Update_alive dt (EmitterConfig.with_origin cfg o) p Ha He) as Hu'.
  cbv zeta in Hu, Hu'. subst q q'. rewrite Hu, Hu'.
  cbn [Particle.position Particle.velocity Particle.origin].
  repeat split.
  apply Particle_Init_origin.
Qed.

End ParticleProperties.

(** ** Colors *)

Lemma all_below_spec (n : Z) (f : Z -> bool) :
  all_below n f = true -> forall z, 0 <= z < n -> f z = true.
Proof.
  unfold all_below. rewrite forallb_forall. intros H z Hz.
  apply H. apply in_map_iff. exists (Z.to_nat z). split.
  - lia.
  - apply in_seq. lia.
Qed.



Lemma fade_zero_sum : all_below 256 fade_zero_sum_ok = true.
Proof. vm_compute. reflexivity. Qed.



Section ColorProperties.
Context {P : Platform}.



End ColorProperties.

(** ** The traversal of [Update] *)

Section Traversal.
Context {P : Platform}.

Lemma activeCount_cons (p : Particle.t) (ps : list Particle.t) :
  Emitter.activeCount (p :: ps)
  = (if Particle.active p then 1 else 0) + Emitter.activeCount ps.
Proof.
  unfold Emitter.activeCount. simpl.
  destruct (Particle.active p); simpl length; lia.
Qed.

Lemma inactiveCount_cons (p : Particle.t) (ps : list Particle.t) :
  Emitter.inactiveCount (p :: ps)
  = (if Particle.active p then 0 else 1) + Emitter.inactiveCount ps.
Proof.
  unfold Emitter.inactiveCount. simpl.
  destruct (Particle.active p); simpl length; lia.
Qed.

Lemma activeCount_nonneg (ps : list Particle.t) : 0 <= Emitter.activeCount ps.
Proof. unfold Emitter.activeCount. lia. Qed.

Lemma inactiveCount_nonneg (ps : list Particle.t) : 0 <= Emitter.inactiveCount ps.
Proof. unfold Emitter.inactiveCount. lia. Qed.

Lemma count_split (ps : list Particle.t) :
  Emitter.activeCount ps + Emitter.inactiveCount ps = Z.of_nat (length ps).
Proof.
  induction ps as [|p ps IH].
  - reflexivity.
  - rewrite activeCount_cons, inactiveCount_cons. simpl length.
    destruct (Particle.active p); lia.
Qed.

Lemma activeCount_le_length (ps : list Particle.t) :
  Emitter.activeCount ps <= Z.of_nat (length ps).
Proof. pose proof (count_split ps). pose proof (inactiveCount_nonneg ps). lia. Qed.

(** The three cases of the lambda of [Update]. *)
Lemma visit_active cfg em dt p fr g :
  Particle.active p = true ->
  Emitter.visit cfg em dt p fr g
  = (Particle.Update dt cfg p,
     Emitter.mkframe (Emitter.emitNow fr) (Emitter.accumulator fr)
                     (wrap64 (Emitter.counter fr + 1)), g).
Proof. intros Hp. unfold Emitter.visit. now rewrite Hp. Qed.

Lemma visit_spawn cfg dt p fr g :
  Particle.active p = false -> 0 < Emitter.emitNow fr ->
  Emitter.visit cfg true dt p fr g
  = (Particle.Update dt cfg (fst (Particle.Init cfg p g)),
     Emitter.mkframe (wrap64 (Emitter.emitNow fr - 1))
                     (F32.sub (Emitter.accumulator fr) F32.one)
                     (wrap64 (Emitter.counter fr + 1)),
     snd (Particle.Init cfg p g)).
Proof.
  intros Hp Hn. unfold Emitter.visit. rewrite Hp.
  assert (H : (0 <? Emitter.emitNow fr) = true) by now apply Z.ltb_lt.
  rewrite H. simpl. unfold bind, ret.
  now destruct (Particle.Init cfg p g).
Qed.

Lemma visit_skip cfg em dt p fr g :
  Particle.active p = false -> em && (0 <? Emitter.emitNow fr) = false ->
  Emitter.visit cfg em dt p fr g = (p, fr, g).
Proof. intros Hp H. unfold Emitter.visit. now rewrite Hp, H. Qed.

Lemma for_each_cons cfg em dt p ps fr g :
  Emitter.for_each cfg em dt (p :: ps) fr g
  = let r := Emitter.visit cfg em dt p fr g in
    let r' := Emitter.for_each cfg em dt ps (snd (fst r)) (snd r) in
    (fst (fst r) :: fst (fst r'), snd (fst r'), snd r').
Proof.
  simpl. unfold bind, ret.
  destruct (Emitter.visit cfg em dt p fr g) as [[p' fr'] g']. simpl.
  now destruct (Emitter.for_each cfg em dt ps fr' g') as [[ps' fr''] g''].
Qed.

Lemma for_each_length cfg em dt ps : forall fr g,
  length (fst (fst (Emitter.for_each cfg em dt ps fr g))) = length ps.
Proof.
  induction ps as [|p ps IH]; intros fr g.
  - reflexivity.
  - rewrite for_each_cons. simpl. now rewrite IH.
Qed.

Lemma visit_counter_bound cfg em dt p fr g :
  0 <= Emitter.counter fr ->
  0 <= Emitter.counter (snd (fst (Emitter.visit cfg em dt p fr g)))
    <= Emitter.counter fr + 1.
Proof.
  intros Hc.
  pose proof (wrap64_range (Emitter.counter fr + 1)).
  pose proof (wrap64_le (Emitter.counter fr + 1)).
  destruct (Particle.active p) eqn:Hp.
  - rewrite visit_active by assumption. simpl. lia.
  - destruct (em && (0 <? Emitter.emitNow fr)) eqn:He.
    + apply andb_true_iff in He as [-> He]. apply Z.ltb_lt in He.
      rewrite visit_spawn by assumption. simpl. lia.
    + rewrite visit_skip by assumption. simpl. lia.
Qed.

Lemma for_each_counter_bound cfg em dt ps : forall fr g,
  0 <= Emitter.counter fr ->
  0 <= Emitter.counter (snd (fst (Emitter.for_each cfg em dt ps fr g)))
    <= Emitter.counter fr + Z.of_nat (length ps).
Proof.
  induction ps as [|p ps IH]; intros fr g Hc.
  - simpl. lia.
  - rewrite for_each_cons. cbv zeta. simpl fst. simpl snd.
    pose proof (visit_counter_bound cfg em dt p fr g Hc) as Hv.
    specialize (IH (snd (fst (Emitter.visit cfg em dt p fr g)))
                   (snd (Emitter.visit cfg em dt p fr g)) (proj1 Hv)).
    simpl length. lia.
Qed.

Lemma for_each_exact cfg em dt ps : forall fr g,
  0 <= Emitter.emitNow fr < 2 ^ 64 ->
  0 <= Emitter.counter fr ->
  Emitter.counter fr + Z.of_nat (length ps) < 2 ^ 64 ->
  let r := fst (Emitter.for_each cfg em dt ps fr g) in
  let n := spawned em (Emitter.emitNow fr) ps in
  Emitter.counter (snd r) = Emitter.counter fr + Emitter.activeCount ps + n
  /\ Emitter.emitNow (snd r) = Emitter.emitNow fr - n
  /\ Emitter.activeCount (fst r) <= Emitter.activeCount ps + n.
Proof.
  induction ps as [|p ps IH]; intros fr g Hn Hc Hlen; cbv zeta.
  - simpl. unfold spawned, Emitter.activeCount, Emitter.inactiveCount. simpl.
    destruct em; lia.
  - rewrite for_each_cons. cbv zeta. simpl fst. simpl snd.
    simpl length in Hlen.
    pose proof (inactiveCount_nonneg ps) as Hi.
    rewrite !activeCount_cons. unfold spawned in *.
    rewrite inactiveCount_cons.
    pose proof (Particle_Update_active_le dt cfg p) as Hup.
    destruct (Particle.active p) eqn:Hp.
    + rewrite visit_active by assumption. simpl fst. simpl snd.
      rewrite wrap64_small by lia.
      specialize (IH (Emitter.mkframe (Emitter.emitNow fr) (Emitter.accumulator fr)
                        (Emitter.counter fr + 1)) g).
      cbv zeta in IH.
      cbn [Emitter.emitNow Emitter.counter Emitter.accumulator] in IH.
      destruct IH as (IH1 & IH2 & IH3); [lia | lia | lia |].
      destruct em; lia.
    + destruct (em && (0 <? Emitter.emitNow fr)) eqn:He.
      * apply andb_true_iff in He as [-> He]. apply Z.ltb_lt in He.
        rewrite visit_spawn by assumption. simpl fst. simpl snd.
        rewrite !wrap64_small by lia.
        specialize (IH (Emitter.mkframe (Emitter.emitNow fr - 1)
                          (F32.sub (Emitter.accumulator fr) F32.one)
                          (Emitter.counter fr + 1))
                       (snd (Particle.Init cfg p g))).
        cbv zeta in IH.
        cbn [Emitter.emitNow Emitter.counter Emitter.accumulator] in IH.
        destruct IH as (IH1 & IH2 & IH3); [lia | lia | lia |].
        pose proof (Particle_Update_active_le dt cfg (fst (Particle.Init cfg p g))) as Hup'.
        rewrite Particle_Init_active in Hup'.
        lia.
      * rewrite visit_skip by assumption. simpl fst. simpl snd.
        specialize (IH fr g). cbv zeta in IH.
        destruct IH as (IH1 & IH2 & IH3); [lia | lia | lia |].
        rewrite Hp.
        destruct em; simpl in He.
        -- apply Z.ltb_ge in He. lia.
        -- lia.
Qed.

Lemma for_each_active_le cfg em dt ps : forall fr g,
  0 <= Emitter.emitNow fr < 2 ^ 64 ->
  Emitter.activeCount (fst (fst (Emitter.for_each cfg em dt ps fr g)))
  + Z.of_nat (length (filter (expires dt) ps))
  <= Emitter.activeCount ps + spawned em (Emitter.emitNow fr) ps.
Proof.
  induction ps as [|p ps IH]; intros fr g Hn.
  - simpl. unfold spawned, Emitter.activeCount, Emitter.inactiveCount. simpl.
    destruct em; lia.
  - rewrite for_each_cons. cbv zeta. simpl fst. simpl snd.
    pose proof (inactiveCount_nonneg ps) as Hi.
    rewrite !activeCount_cons. unfold spawned in *. rewrite inactiveCount_cons.
    simpl filter.
    destruct (Particle.active p) eqn:Hp.
    + rewrite visit_active by assumption. simpl fst. simpl snd.
      specialize (IH (Emitter.mkframe (Emitter.emitNow fr) (Emitter.accumulator fr)
                        (wrap64 (Emitter.counter fr + 1))) g).
      cbn [Emitter.emitNow] in IH. specialize (IH Hn).
      destruct (expires dt p) eqn:Hx.
      * rewrite (Particle_Update_expires _ cfg _ Hx). simpl length.
        destruct em; lia.
      * pose proof (Particle_Update_active_le dt cfg p) as Hup. rewrite Hp in Hup.
        destruct em; lia.
    + assert (Hx : expires dt p = false) by (unfold expires; now rewrite Hp).
      rewrite Hx.
      destruct (em && (0 <? Emitter.emitNow fr)) eqn:He.
      * apply andb_true_iff in He as [-> He]. apply Z.ltb_lt in He.
        rewrite visit_spawn by assumption. simpl fst. simpl snd.
        rewrite (wrap64_small (Emitter.emitNow fr - 1)) by lia.
        specialize (IH (Emitter.mkframe (Emitter.emitNow fr - 1)
                          (F32.sub (Emitter.accumulator fr) F32.one)
                          (wrap64 (Emitter.counter fr + 1)))
                       (snd (Particle.Init cfg p g))).
        cbn [Emitter.emitNow] in IH. specialize (IH ltac:(lia)).
        pose proof (Particle_Update_active_le dt cfg (fst (Particle.Init cfg p g))) as Hup.
        rewrite Particle_Init_active in Hup. lia.
      * rewrite visit_skip by assumption. simpl fst. simpl snd.
        specialize (IH fr g Hn). rewrite Hp.
        destruct em; simpl in He.
        -- apply Z.ltb_ge in He. lia.
        -- lia.
Qed.

(** Without emission an all-inactive pool is left as it is. *)
Lemma for_each_idle cfg dt ps : forall fr g,
  Forall (fun p => Particle.active p = false) ps ->
  Emitter.for_each cfg false dt ps fr g = (ps, fr, g).
Proof.
  induction ps as [|p ps IH]; intros fr g Hall.
  - reflexivity.
  - inversion Hall as [|? ? Hp Hps]; subst.
    rewrite for_each_cons, visit_skip by (assumption || reflexivity).
    cbv zeta. simpl fst. simpl snd. now rewrite IH.
Qed.

Lemma expires_exists dt ps :
  Exists (fun p => expires dt p = true) ps ->
  0 < Z.of_nat (length (filter (expires dt) ps)).
Proof.
  induction 1 as [p ps Hp | p ps _ IH]; simpl.
  - rewrite Hp. simpl length. lia.
  - destruct (expires dt p); simpl length; lia.
Qed.

Lemma Emitter_Update_unfold dt e g :
  Emitter.Update dt e g
  = let r := Emitter.for_each (Emitter.config e) (Emitter.isEmitting e) dt
               (Emitter.particles e)
               (Emitter.mkframe (spawnBudget dt e)
                  (if Emitter.isEmitting e then
                     F32.add (Emitter.mustEmit e)
                       (F32.mul dt (F32.of_Z (EmitterConfig.emissionRate (Emitter.config e))))
                   else Emitter.mustEmit e) 0) g in
    (Emitter.counter (snd (fst r)),
     Emitter.mk (Emitter.config e) (Emitter.accumulator (snd (fst r)))
                (Emitter.isEmitting e) (fst (fst r)),
     snd r).
Proof.
  unfold Emitter.Update, spawnBudget, bind, ret. cbv beta zeta.
  destruct (Emitter.isEmitting e);
    now destruct (Emitter.for_each _ _ _ _ _ _) as [[ps fr] g'].
Qed.

Lemma spawnBudget_range dt e : 0 <= spawnBudget dt e < 2 ^ 64.
Proof.
  unfold spawnBudget. destruct (Emitter.isEmitting e).
  - apply to_size_t_range.
  - lia.
Qed.

(** What one [Update] does to the pool, the flag and the configuration. *)
Lemma Emitter_Update_exact (dt : float) (e : Emitter.t) (g : RNG) :
  Z.of_nat (length (Emitter.particles e)) < 2 ^ 64 ->
  let r := fst (Emitter.Update dt e g) in
  let n := spawned (Emitter.isEmitting e) (spawnBudget dt e) (Emitter.particles e) in
  fst r = Emitter.activeCount (Emitter.particles e) + n
  /\ Emitter.activeCount (Emitter.particles (snd r))
     + Z.of_nat (length (filter (expires dt) (Emitter.particles e)))
     <= Emitter.activeCount (Emitter.particles e) + n
  /\ length (Emitter.particles (snd r)) = length (Emitter.particles e)
  /\ Emitter.isEmitting (snd r) = Emitter.isEmitting e
  /\ Emitter.config (snd r) = Emitter.config e.
Proof.
  intros Hlen. cbv zeta. rewrite Emitter_Update_unfold. cbv zeta. simpl fst. simpl snd.
  cbn [Emitter.particles Emitter.isEmitting Emitter.config].
  pose proof (spawnBudget_range dt e) as Hb.
  match goal with
  | |- context [Emitter.for_each ?c ?em ?d ?ps ?fr ?g0] =>
      pose proof (for_each_exact c em d ps fr g0) as Hx;
      pose proof (for_each_active_le c em d ps fr g0) as Hy;
      pose proof (for_each_length c em d ps fr g0) as Hz;
      set (R := Emitter.for_each c em d ps fr g0) in *; clearbody R
  end.
  cbv zeta in Hx. cbn [Emitter.emitNow Emitter.counter] in Hx, Hy.
  destruct Hx as (Hx1 & _ & _); [lia | lia | lia |].
  specialize (Hy Hb).
  repeat split; try assumption; lia.
Qed.

(** C10: [Update] counts every slot that is active when the traversal
    reaches it, the slots active on entry and the slots it initialises,
    whether or not the particle survives the step; the returned value is
    therefore at least the number of particles active afterwards, and
    strictly greater as soon as one particle that was active on entry
    expires in this very step. *)
Theorem Update_counts_slots_active_on_arrival
  (dt : float) (e : Emitter.t) (g : RNG) :
  Z.of_nat (length (Emitter.particles e)) < 2 ^ 64 ->
  let r := fst (Emitter.Update dt e g) in
  fst r = Emitter.activeCount (Emitter.particles e)
          + spawned (Emitter.isEmitting e) (spawnBudget dt e) (Emitter.particles e)
  /\ Emitter.activeCount (Emitter.particles (snd r)) <= fst r
  /\ (Exists (fun p => expires dt p = true) (Emitter.particles e) ->
      Emitter.activeCount (Emitter.particles (snd r)) < fst r).
Proof.
  intros Hlen. cbv zeta.
  destruct (Emitter_Update_exact dt e g Hlen) as (H1 & H2 & _).
  set (k := Z.of_nat (length (filter (expires dt) (Emitter.particles e)))) in *.
  assert (Hk : 0 <= k) by (unfold k; lia).
  split; [exact H1 | split].
  - clearbody k. lia.
  - intros Hex. apply expires_exists in Hex. fold k in Hex. clearbody k. lia.
Qed.

End Traversal.

(** ** [Burst] *)

Lemma activate_first_0 (flags : list bool) : activate_first 0 flags = flags.
Proof. now destruct flags. Qed.

Lemma activate_first_cons_true (n : nat) (flags : list bool) :
  activate_first n (true :: flags) = true :: activate_first n flags.
Proof. destruct n; simpl; [now rewrite activate_first_0 | reflexivity]. Qed.

Section BurstProperties.
Context {P : Platform}.

Lemma Burst_loop_length cfg amount ps : forall emitted g,
  length (fst (Emitter.Burst_loop cfg amount emitted ps g)) = length ps.
Proof.
  induction ps as [|p ps IH]; intros emitted g.
  - reflexivity.
  - simpl. destruct (Particle.active p); simpl; unfold bind, ret.
    + specialize (IH emitted g).
      destruct (Emitter.Burst_loop cfg amount emitted ps g). simpl in *. now rewrite IH.
    + destruct (Particle.Init cfg p g) as [p' g'].
      destruct (wrap64 amount <=? wrap64 (emitted + 1)).
      * reflexivity.
      * specialize (IH (wrap64 (emitted + 1)) g').
        destruct (Emitter.Burst_loop cfg amount (wrap64 (emitted + 1)) ps g').
        simpl in *. now rewrite IH.
Qed.

Lemma Burst_loop_cons_active cfg amount emitted p ps g :
  Particle.active p = true ->
  fst (Emitter.Burst_loop cfg amount emitted (p :: ps) g)
  = p :: fst (Emitter.Burst_loop cfg amount emitted ps g).
Proof.
  intros Hp. simpl. rewrite Hp. simpl. unfold bind, ret.
  now destruct (Emitter.Burst_loop cfg amount emitted ps g).
Qed.

Lemma Burst_loop_cons_inactive cfg amount emitted p ps g :
  Particle.active p = false ->
  fst (Emitter.Burst_loop cfg amount emitted (p :: ps) g)
  = fst (Particle.Init cfg p g)
    :: (if wrap64 amount <=? wrap64 (emitted + 1) then ps
        else fst (Emitter.Burst_loop cfg amount (wrap64 (emitted + 1)) ps
                    (snd (Particle.Init cfg p g)))).
Proof.
  intros Hp. simpl. rewrite Hp. simpl. unfold bind, ret.
  destruct (Particle.Init cfg p g) as [p' g']. simpl.
  destruct (wrap64 amount <=? wrap64 (emitted + 1)).
  - reflexivity.
  - now destruct (Emitter.Burst_loop cfg amount (wrap64 (emitted + 1)) ps g').
Qed.

Lemma Burst_loop_spec cfg amount ps : forall emitted g,
  0 <= emitted ->
  emitted + Z.of_nat (length ps) < 2 ^ 64 ->
  let ps' := fst (Emitter.Burst_loop cfg amount emitted ps g) in
  let n := activated amount emitted ps in
  map Particle.active ps' = activate_first (Z.to_nat n) (map Particle.active ps)
  /\ Emitter.activeCount ps' = Emitter.activeCount ps + n
  /\ (forall i p, nth_error ps i = Some p -> Particle.active p = true ->
                  nth_error ps' i = Some p).
Proof.
  induction ps as [|p ps IH]; intros emitted g He Hlen; cbv zeta.
  - simpl. unfold activated, Emitter.activeCount, Emitter.inactiveCount. simpl.
    repeat split; try lia. intros [|i] p H; discriminate.
  - simpl length in Hlen.
    pose proof (inactiveCount_nonneg ps) as Hi.
    pose proof (wrap64_range amount) as Hk.
    unfold activated in *. rewrite inactiveCount_cons.
    destruct (Particle.active p) eqn:Hp.
    + rewrite Burst_loop_cons_active by assumption.
      specialize (IH emitted g He ltac:(lia)). cbv zeta in IH.
      destruct IH as (IH1 & IH2 & IH3).
      rewrite !activeCount_cons, Hp. simpl map. rewrite Hp.
      replace (0 + Emitter.inactiveCount ps) with (Emitter.inactiveCount ps) by lia.
      repeat split.
      * now rewrite activate_first_cons_true, IH1.
      * lia.
      * intros [|i] q Hq Hqa; simpl in *; [assumption | now apply IH3].
    + rewrite Burst_loop_cons_inactive by assumption.
      rewrite (wrap64_small (emitted + 1)) by lia.
      rewrite !activeCount_cons, Hp, Particle_Init_active. simpl map. rewrite Hp, Particle_Init_active.
      destruct (wrap64 amount <=? emitted + 1) eqn:Hstop.
      * apply Z.leb_le in Hstop.
        replace (Z.min (Z.max 1 (wrap64 amount - emitted)) (1 + Emitter.inactiveCount ps))
          with 1 by lia.
        repeat split.
        -- change (Z.to_nat 1) with 1%nat. simpl. now rewrite activate_first_0.
        -- lia.
        -- intros [|i] q Hq Hqa; simpl in *; [congruence | assumption].
      * apply Z.leb_gt in Hstop.
        specialize (IH (emitted + 1) (snd (Particle.Init cfg p g)) ltac:(lia) ltac:(lia)).
        cbv zeta in IH. destruct IH as (IH1 & IH2 & IH3).
        replace (Z.min (Z.max 1 (wrap64 amount - emitted)) (1 + Emitter.inactiveCount ps))
          with (1 + Z.min (Z.max 1 (wrap64 amount - (emitted + 1))) (Emitter.inactiveCount ps))
          by lia.
        repeat split.
        -- rewrite Z2Nat.inj_add by lia. change (Z.to_nat 1) with 1%nat.
           simpl. now rewrite IH1.
        -- lia.
        -- intros [|i] q Hq Hqa; simpl in *; [congruence | now apply IH3].
Qed.

Lemma Emitter_Burst_unfold e g :
  fst (Emitter.Burst e g)
  = Emitter.mk (Emitter.config e) (Emitter.mustEmit e) (Emitter.isEmitting e)
      (fst (Emitter.Burst_loop (Emitter.config e)
              (fst (IntRange.RandomValue (EmitterConfig.burst (Emitter.config e)) g))
              0 (Emitter.particles e)
              (snd (IntRange.RandomValue (EmitterConfig.burst (Emitter.config e)) g)))).
Proof.
  unfold Emitter.Burst, bind, ret.
  destruct (IntRange.RandomValue _ g) as [amount g1]. simpl.
  now destruct (Emitter.Burst_loop _ _ _ _ _) as [ps g2].
Qed.

(** C3: [Burst] initialises the first inactive slots in ascending order
    and leaves every active slot as it is; with [amount] the sampled
    value, converted to [size_t], it initialises
    [min (max 1 amount) inactiveCount] slots.  The comparison
    [++emitted >= amount] is made after the slot has been initialised, so
    a sampled amount of 0 still activates one particle when a slot is
    free. *)
Theorem Burst_activates (e : Emitter.t) (g : RNG) :
  Z.of_nat (length (Emitter.particles e)) < 2 ^ 64 ->
  let amount := fst (IntRange.RandomValue (EmitterConfig.burst (Emitter.config e)) g) in
  let n := Z.min (Z.max 1 (wrap64 amount)) (Emitter.inactiveCount (Emitter.particles e)) in
  let ps' := Emitter.particles (fst (Emitter.Burst e g)) in
  map Particle.active ps'
  = activate_first (Z.to_nat n) (map Particle.active (Emitter.particles e))
  /\ Emitter.activeCount ps' = Emitter.activeCount (Emitter.particles e) + n
  /\ (forall i p, nth_error (Emitter.particles e) i = Some p ->
                  Particle.active p = true -> nth_error ps' i = Some p).
Proof.
  intros Hlen. cbv zeta. rewrite Emitter_Burst_unfold. cbn [Emitter.particles].
  match goal with
  | |- context [Emitter.Burst_loop ?c ?a 0 ?ps ?g0] =>
      pose proof (Burst_loop_spec c a ps 0 g0) as H
  end.
  cbv zeta in H. unfold activated in H. rewrite Z.sub_0_r in H.
  apply H; lia.
Qed.

End BurstProperties.

(** ** Call sequences *)

Section Sequences.
Context {P : Platform}.

(** One call keeps the pool's size and the configured capacity, and an
    [Update] returns at most the pool's size. *)
Lemma step_pool op e g :
  let r := fst (step op e g) in
  length (Emitter.particles (snd r)) = length (Emitter.particles e)
  /\ EmitterConfig.capacity (Emitter.config (snd r))
     = EmitterConfig.capacity (Emitter.config e)
  /\ Forall (fun n => 0 <= n <= Z.of_nat (length (Emitter.particles e))) (fst r).
Proof.
  cbv zeta. destruct op as [o | | | | dt]; simpl; unfold bind, ret.
  - auto.
  - auto.
  - auto.
  - pose proof (Emitter_Burst_unfold e g) as H.
    destruct (Emitter.Burst e g) as [e' g']. simpl in *. subst e'. simpl.
    rewrite Burst_loop_length. auto.
  - rewrite Emitter_Update_unfold. cbv zeta. simpl.
    rewrite for_each_length. repeat split; try reflexivity.
    constructor; [|constructor].
    match goal with
    | |- context [Emitter.for_each ?c ?em ?d ?ps ?fr ?g0] =>
        pose proof (for_each_counter_bound c em d ps fr g0) as Hb
    end.
    simpl in Hb. lia.
Qed.

Lemma run_cons op ops e g :
  run (op :: ops) e g
  = let r := step op e g in
    let r' := run ops (snd (fst r)) (snd r) in
    (fst (fst r) ++ fst (fst r'), snd (fst r'), snd r').
Proof.
  simpl. unfold bind, ret.
  destruct (step op e g) as [[ns e1] g1]. simpl.
  now destruct (run ops e1 g1) as [[ns' e2] g2].
Qed.

Lemma run_pool ops : forall e g,
  let r := fst (run ops e g) in
  length (Emitter.particles (snd r)) = length (Emitter.particles e)
  /\ EmitterConfig.capacity (Emitter.config (snd r))
     = EmitterConfig.capacity (Emitter.config e)
  /\ Forall (fun n => 0 <= n <= Z.of_nat (length (Emitter.particles e))) (fst r).
Proof.
  induction ops as [|op ops IH]; intros e g; cbv zeta.
  - simpl. auto.
  - rewrite run_cons. cbv zeta. simpl fst. simpl snd.
    pose proof (step_pool op e g) as Hs. cbv zeta in Hs.
    destruct Hs as (Hs1 & Hs2 & Hs3).
    specialize (IH (snd (fst (step op e g))) (snd (step op e g))). cbv zeta in IH.
    destruct IH as (IH1 & IH2 & IH3).
    rewrite Hs1 in IH1, IH3. rewrite Hs2 in IH2.
    repeat split; try assumption.
    apply Forall_app. split; assumption.
Qed.

Lemma make_length cfg :
  0 <= EmitterConfig.capacity cfg ->
  Z.of_nat (length (Emitter.particles (Emitter.make cfg))) = EmitterConfig.capacity cfg.
Proof.
  intros H. simpl. rewrite repeat_length. lia.
Qed.

(** C1: whatever calls an emitter receives after its construction, every
    value returned by [Update] lies between 0 and the configured capacity,
    the pool keeps exactly [capacity] slots, and the configured capacity
    itself never changes. *)
Theorem pool_capacity_invariant
  (cfg : EmitterConfig.t) (ops : list Op) (g : RNG) :
  0 <= EmitterConfig.capacity cfg ->
  let r := fst (run ops (Emitter.make cfg) g) in
  Forall (fun n => 0 <= n <= EmitterConfig.capacity cfg) (fst r)
  /\ Z.of_nat (length (Emitter.particles (snd r))) = EmitterConfig.capacity cfg
  /\ EmitterConfig.capacity (Emitter.config (snd r)) = EmitterConfig.capacity cfg
  /\ Emitter.activeCount (Emitter.particles (snd r)) <= EmitterConfig.capacity cfg.
Proof.
  intros Hcap. cbv zeta.
  pose proof (run_pool ops (Emitter.make cfg) g) as H. cbv zeta in H.
  destruct H as (H1 & H2 & H3).
  rewrite (make_length cfg Hcap) in H3.
  assert (Hlen : Z.of_nat (length (Emitter.particles (snd (fst (run ops (Emitter.make cfg) g)))))
                 = EmitterConfig.capacity cfg).
  { rewrite H1. now apply make_length. }
  repeat split.
  - exact H3.
  - exact Hlen.
  - rewrite H2. reflexivity.
  - rewrite <- Hlen. apply activeCount_le_length.
Qed.

Lemma Emitter_Update_idle dt e g :
  Emitter.isEmitting e = false ->
  Forall (fun p => Particle.active p = false) (Emitter.particles e) ->
  Emitter.Update dt e g = (0, e, g).
Proof.
  intros He Hall. rewrite Emitter_Update_unfold. cbv zeta.
  unfold spawnBudget. rewrite He.
  rewrite for_each_idle by assumption. simpl.
  destruct e; simpl in *. now subst.
Qed.

Lemma run_idle ops : forall e g,
  idle (Emitter.isEmitting e) ops = true ->
  Forall (fun p => Particle.active p = false) (Emitter.particles e) ->
  let r := fst (run ops e g) in
  Forall (fun n => n = 0) (fst r)
  /\ Forall (fun p => Particle.active p = false) (Emitter.particles (snd r)).
Proof.
  induction ops as [|op ops IH]; intros e g Hidle Hall; cbv zeta.
  - simpl. auto.
  - rewrite run_cons. cbv zeta. simpl fst. simpl snd.
    destruct op as [o | | | | dt]; simpl in Hidle.
    + apply (IH (Emitter.SetOrigin o e) g); assumption.
    + apply (IH (Emitter.Start e) g); assumption.
    + apply (IH (Emitter.Stop e) g); assumption.
    + discriminate.
    + apply andb_true_iff in Hidle as [Hne Hidle].
      apply negb_true_iff in Hne.
      simpl. unfold bind, ret. rewrite (Emitter_Update_idle dt e g Hne Hall). simpl.
      destruct (IH e g Hidle Hall) as [IH1 IH2].
      split; [constructor; [reflexivity | exact IH1] | exact IH2].
Qed.

Lemma make_inactive cfg :
  Forall (fun p => Particle.active p = false) (Emitter.particles (Emitter.make cfg)).
Proof.
  simpl. induction (Z.to_nat (EmitterConfig.capacity cfg)); simpl; constructor; auto.
Qed.

(** C8: on an emitter on which [Burst] is never called and every [Update]
    runs while [isEmitting] is false, every [Update] returns 0 and every
    slot of the pool is inactive, for any sequence of calls and any elapsed
    times. *)
Theorem idle_emitter_stays_empty
  (cfg : EmitterConfig.t) (ops : list Op) (g : RNG) :
  idle false ops = true ->
  let r := fst (run ops (Emitter.make cfg) g) in
  Forall (fun n => n = 0) (fst r)
  /\ Forall (fun p => Particle.active p = false) (Emitter.particles (snd r))
  /\ Emitter.activeCount (Emitter.particles (snd r)) = 0.
Proof.
  intros Hidle. cbv zeta.
  destruct (run_idle ops (Emitter.make cfg) g Hidle (make_inactive cfg)) as [H1 H2].
  repeat split; try assumption.
  unfold Emitter.activeCount.
  induction H2 as [|p ps Hp _ IH]; simpl.
  - reflexivity.
  - rewrite Hp. exact IH.
Qed.

End Sequences.

(** ** The particle system *)

Section SystemProperties.
Context {P : Platform}.

Lemma Update_from_total dt s : forall c g,
  0 <= c < 2 ^ 64 ->
  fst (fst (ParticleSystem.Update_from dt s c g))
  = wrap64 (c + fold_right Z.add 0 (fst (ParticleSystem.returned dt s g))).
Proof.
  induction s as [|e s IH]; intros c g Hc; simpl; unfold bind, ret.
  - simpl. rewrite Z.add_0_r. symmetry. now apply wrap64_small.
  - destruct (Emitter.Update dt e g) as [[n e'] g1]. simpl.
    specialize (IH (wrap64 (c + n)) g1 (wrap64_range _)).
    destruct (ParticleSystem.Update_from dt s (wrap64 (c + n)) g1) as [[t s'] g2].
    destruct (ParticleSystem.returned dt s g1) as [ns g3]. simpl in *.
    rewrite IH, wrap64_add_l. f_equal. lia.
Qed.

(** In the sequential traversal [ParticleSystem::Update] returns the sum
    of what its emitters' [Update] calls return, modulo [2^64]. *)
Lemma ParticleSystem_Update_total dt s g :
  fst (fst (ParticleSystem.Update dt s g))
  = wrap64 (fold_right Z.add 0 (fst (ParticleSystem.returned dt s g))).
Proof.
  unfold ParticleSystem.Update. rewrite Update_from_total by lia. reflexivity.
Qed.

End SystemProperties.

(** ** The spawn accumulator *)





(** *** Exact subtraction of 1 in binary32 *)




















(** *** The split law *)

Section SplitLaw.
Context {P : Platform}.

Lemma spawnBudget_emitting dt e :
  Emitter.isEmitting e = true ->
  spawnBudget dt e = F32.to_size_t (F32.add (Emitter.mustEmit e) (emission dt e)).
Proof. intros H. unfold spawnBudget, emission. now rewrite H. Qed.








End SplitLaw.

(** ** Sequencing in the random-source computations *)

Section RandomSource.
Context {P : Platform}.

Lemma bind_run {A B : Type} (c : Rand A) (k : A -> Rand B) (g : RNG) :
  bind c k g = k (fst (c g)) (snd (c g)).
Proof. unfold bind. now destruct (c g). Qed.

Lemma draws_add (a b : nat) (g : RNG) : draws (a + b) g = draws a (draws b g).
Proof. unfold draws. apply Nat.iter_add. Qed.

Lemma RandomValue_draw (rg : FloatRange.t) (g : RNG) :
  snd (FloatRange.RandomValue rg g) = draws 1 g.
Proof. unfold FloatRange.RandomValue. rewrite bind_run. reflexivity. Qed.

Lemma Particle_Init_draws cfg p g : snd (Particle.Init cfg p g) = draws 6 g.
Proof.
  unfold Particle.Init. rewrite !bind_run. unfold ret. cbn [snd].
  rewrite !RandomValue_draw. reflexivity.
Qed.

Lemma decrements_succ (n : nat) (a : float) :
  decrements (S n) a = decrements n (F32.sub a F32.one).
Proof. unfold decrements. now rewrite Nat.iter_succ_r. Qed.

End RandomSource.

(** ** The life of one particle *)

Lemma leb_false_ltb_false (a b : float) : F32.leb a b = false -> F32.ltb a b = false.
Proof.
  unfold F32.leb, F32.ltb, SFleb, SFltb.
  now destruct (SFcompare a b) as [[| |]|].
Qed.

Lemma add_nan_r (a : float) : F32.add a S754_nan = S754_nan.
Proof. now destruct a. Qed.

Section ParticleLife.
Context {P : Platform}.

Lemma Particle_Update_parameters dt cfg p :
  Particle.origin (Particle.Update dt cfg p) = Particle.origin p
  /\ Particle.ttl (Particle.Update dt cfg p) = Particle.ttl p
  /\ Particle.originAcceleration (Particle.Update dt cfg p)
     = Particle.originAcceleration p
  /\ Particle.externalAcceleration (Particle.Update dt cfg p)
     = Particle.externalAcceleration p.
Proof.
  unfold Particle.Update.
  destruct (Particle.active p); simpl; [|auto].
  destruct (Particle.IsExpired _); simpl; [auto|].
  destruct (Particle.collide _ _ _); simpl; auto.
Qed.

(** X1: what [Init] gave a particle stays with it.  Through any sequence
    of [Update] calls, whatever the elapsed times and whatever the
    emitter's configuration has become, the particle keeps its origin,
    its lifetime, and its two accelerations; and a particle that is
    inactive is not changed at all, so only [Init] brings a slot back to
    life. *)
Theorem Particle_parameters_fixed_at_spawn
  (steps : list (float * EmitterConfig.t)) (p : Particle.t) :
  let q := Particle_steps steps p in
  Particle.origin q = Particle.origin p
  /\ Particle.ttl q = Particle.ttl p
  /\ Particle.originAcceleration q = Particle.originAcceleration p
  /\ Particle.externalAcceleration q = Particle.externalAcceleration p
  /\ (Particle.active p = false -> q = p).
Proof.
  cbv zeta. revert p. induction steps as [|[dt cfg] steps IH]; intros p.
  - simpl. auto.
  - unfold Particle_steps in *. simpl.
    destruct (IH (Particle.Update dt cfg p)) as (H1 & H2 & H3 & H4 & H5).
    destruct (Particle_Update_parameters dt cfg p) as (U1 & U2 & U3 & U4).
    rewrite H1, H2, H3, H4.
    repeat split; try assumption.
    intros Hp. rewrite (Particle_Update_inactive dt cfg p Hp) in *.
    now apply H5.
Qed.

(** A particle that [Update] leaves active is within its lifetime and,
    under collision, not below the ground. *)
Lemma Particle_Update_settled dt cfg p :
  Particle.active (Particle.Update dt cfg p) = true ->
  settled cfg (Particle.Update dt cfg p) = true.
Proof.
  intros Hq.
  pose proof (Particle_Update_never_activates dt cfg p Hq) as Hp.
  destruct (Particle.IsExpired (Particle.with_age p (F32.add (Particle.age p) dt)))
    eqn:He.
  - rewrite (Particle_Update_expired dt cfg p Hp He) in Hq. discriminate.
  - pose proof (Particle_Update_alive dt cfg p Hp He) as Hu. cbv zeta in Hu.
    rewrite Hu. unfold settled, Particle.IsExpired in *.
    cbn [Particle.age Particle.ttl Particle.position Particle.with_age] in *.
    rewrite He. unfold Particle.collide.
    set (pos := Particle.integrate dt cfg _).
    set (vel := Particle.accelerate dt cfg _).
    destruct (EmitterConfig.collision cfg); [|reflexivity].
    destruct (F32.leb (Vector3.y pos) F32.zero) eqn:Hy.
    + reflexivity.
    + cbn [fst andb]. now rewrite (leb_false_ltb_false _ _ Hy).
Qed.


Lemma Particle_Update_nan_age dt cfg p :
  Particle.active p = true -> Particle.age p = S754_nan ->
  Particle.active (Particle.Update dt cfg p) = true
  /\ Particle.age (Particle.Update dt cfg p) = S754_nan.
Proof.
  intros Ha Hn.
  assert (He : Particle.IsExpired (Particle.with_age p (F32.add (Particle.age p) dt))
               = false).
  { unfold Particle.IsExpired. cbn [Particle.age Particle.ttl Particle.with_age].
    rewrite Hn. unfold F32.gtb, F32.ltb, SFltb.
    now destruct (Particle.ttl p). }
  pose proof (Particle_Update_alive dt cfg p Ha He) as Hu. cbv zeta in Hu.
  rewrite Hu. cbn [Particle.active Particle.age]. rewrite Hn. auto.
Qed.

(** X3: one frame time that is not a number takes expiry away for good.
    [age += dt] makes the age a NaN, [age > ttl] is false on a NaN
    whatever the lifetime, and every later sum is a NaN again: an active
    particle stepped once with a NaN frame time stays active through any
    later sequence of steps. *)
Theorem nan_frame_time_makes_particles_immortal
  (cfg : EmitterConfig.t) (steps : list (float * EmitterConfig.t)) (p : Particle.t) :
  Particle.active p = true ->
  let q := Particle_steps steps (Particle.Update S754_nan cfg p) in
  Particle.active q = true /\ Particle.age q = S754_nan.
Proof.
  intros Ha. cbv zeta.
  assert (H1 : Particle.active (Particle.Update S754_nan cfg p) = true
               /\ Particle.age (Particle.Update S754_nan cfg p) = S754_nan).
  { assert (He : Particle.IsExpired
                   (Particle.with_age p (F32.add (Particle.age p) S754_nan)) = false).
    { unfold Particle.IsExpired. cbn [Particle.age Particle.ttl Particle.with_age].
      rewrite add_nan_r. unfold F32.gtb, F32.ltb, SFltb.
      now destruct (Particle.ttl p). }
    pose proof (Particle_Update_alive S754_nan cfg p Ha He) as Hu. cbv zeta in Hu.
    rewrite Hu. cbn [Particle.active Particle.age]. rewrite add_nan_r. auto. }
  revert H1. generalize (Particle.Update S754_nan cfg p). clear p Ha.
  induction steps as [|[dt c] steps IH]; intros p [Ha Hn].
  - simpl. auto.
  - unfold Particle_steps in *. simpl. apply IH.
    now apply Particle_Update_nan_age.
Qed.

End ParticleLife.

(** ** What [Update] does to the pool, the accumulator and the random source *)

Section UpdateEffects.
Context {P : Platform}.

Lemma for_each_slotwise cfg em dt ps : forall fr g,
  Forall2 (slot_step dt cfg) ps (fst (fst (Emitter.for_each cfg em dt ps fr g))).
Proof.
  induction ps as [|p ps IH]; intros fr g.
  - constructor.
  - rewrite for_each_cons. cbv zeta. cbn [fst snd].
    constructor; [|apply IH].
    destruct (Particle.active p) eqn:Hp.
    + rewrite visit_active by assumption. cbn [fst]. now constructor.
    + destruct (em && (0 <? Emitter.emitNow fr)) eqn:He.
      * apply andb_true_iff in He as [-> He]. apply Z.ltb_lt in He.
        rewrite visit_spawn by assumption. cbn [fst]. now constructor.
      * rewrite visit_skip by assumption. cbn [fst]. now constructor.
Qed.

Lemma spawned_cons_active em budget p ps :
  Particle.active p = true -> spawned em budget (p :: ps) = spawned em budget ps.
Proof.
  intros Hp. unfold spawned. rewrite inactiveCount_cons, Hp. now rewrite Z.add_0_l.
Qed.

Lemma spawned_cons_spawn budget p ps :
  Particle.active p = false -> 0 < budget ->
  spawned true budget (p :: ps) = 1 + spawned true (budget - 1) ps.
Proof.
  intros Hp Hb. unfold spawned. rewrite inactiveCount_cons, Hp.
  pose proof (inactiveCount_nonneg ps). lia.
Qed.

Lemma spawned_cons_skip em budget p ps :
  0 <= budget -> em && (0 <? budget) = false ->
  spawned em budget (p :: ps) = 0 /\ spawned em budget ps = 0.
Proof.
  intros Hb He. unfold spawned. rewrite inactiveCount_cons.
  pose proof (inactiveCount_nonneg ps).
  destruct em; [|auto]. simpl in He. apply Z.ltb_ge in He.
  destruct (Particle.active p); lia.
Qed.

Lemma spawned_nonneg em budget ps : 0 <= budget -> 0 <= spawned em budget ps.
Proof.
  intros Hb. unfold spawned. pose proof (inactiveCount_nonneg ps).
  destruct em; lia.
Qed.

Lemma spawned_le_inactive em budget ps :
  spawned em budget ps <= Emitter.inactiveCount ps.
Proof.
  unfold spawned. pose proof (inactiveCount_nonneg ps). destruct em; lia.
Qed.

(** The accumulator and the random source after the traversal, by the
    number of slots it initialises. *)
Lemma for_each_effects cfg em dt ps : forall fr g,
  0 <= Emitter.emitNow fr < 2 ^ 64 ->
  let r := Emitter.for_each cfg em dt ps fr g in
  let k := Z.to_nat (spawned em (Emitter.emitNow fr) ps) in
  Emitter.accumulator (snd (fst r)) = decrements k (Emitter.accumulator fr)
  /\ snd r = draws (6 * k) g.
Proof.
  induction ps as [|p ps IH]; intros fr g Hn; cbv zeta.
  - assert (H0 : spawned em (Emitter.emitNow fr) [] = 0).
    { unfold spawned, Emitter.inactiveCount. simpl. destruct em; lia. }
    rewrite H0. simpl. auto.
  - rewrite for_each_cons. cbv zeta. cbn [fst snd].
    destruct (Particle.active p) eqn:Hp.
    + rewrite visit_active by assumption. cbn [fst snd].
      rewrite spawned_cons_active by assumption.
      specialize (IH (Emitter.mkframe (Emitter.emitNow fr) (Emitter.accumulator fr)
                        (wrap64 (Emitter.counter fr + 1))) g).
      cbv zeta in IH. cbn [Emitter.emitNow Emitter.accumulator] in IH.
      now apply IH.
    + destruct (em && (0 <? Emitter.emitNow fr)) eqn:He.
      * apply andb_true_iff in He as [-> He]. apply Z.ltb_lt in He.
        rewrite visit_spawn by assumption. cbn [fst snd].
        rewrite spawned_cons_spawn by assumption.
        rewrite (wrap64_small (Emitter.emitNow fr - 1)) by lia.
        specialize (IH (Emitter.mkframe (Emitter.emitNow fr - 1)
                          (F32.sub (Emitter.accumulator fr) F32.one)
                          (wrap64 (Emitter.counter fr + 1)))
                       (snd (Particle.Init cfg p g))).
        cbv zeta in IH. cbn [Emitter.emitNow Emitter.accumulator] in IH.
        destruct IH as [IH1 IH2]; [lia|].
        pose proof (spawned_nonneg true (Emitter.emitNow fr - 1) ps ltac:(lia)) as Hk.
        set (k := spawned true (Emitter.emitNow fr - 1) ps) in *.
        replace (Z.to_nat (1 + k)) with (S (Z.to_nat k)) by lia.
        rewrite decrements_succ, IH1, IH2, Particle_Init_draws.
        split; [reflexivity|].
        replace (6 * S (Z.to_nat k))%nat with (6 * Z.to_nat k + 6)%nat by lia.
        now rewrite draws_add.
      * rewrite visit_skip by assumption. cbn [fst snd].
        destruct (spawned_cons_skip em (Emitter.emitNow fr) p ps (proj1 Hn) He)
          as [H1 H2].
        rewrite H1. specialize (IH fr g Hn). cbv zeta in IH. rewrite H2 in IH.
        exact IH.
Qed.

(** A traversal that initialises no slot steps every slot. *)
Lemma for_each_no_spawn cfg em dt ps : forall fr g,
  0 <= Emitter.emitNow fr ->
  spawned em (Emitter.emitNow fr) ps = 0 ->
  let r := Emitter.for_each cfg em dt ps fr g in
  fst (fst r) = map (Particle.Update dt cfg) ps
  /\ Emitter.accumulator (snd (fst r)) = Emitter.accumulator fr
  /\ snd r = g.
Proof.
  induction ps as [|p ps IH]; intros fr g Hn H0; cbv zeta.
  - simpl. auto.
  - rewrite for_each_cons. cbv zeta. cbn [fst snd map].
    destruct (Particle.active p) eqn:Hp.
    + rewrite visit_active by assumption. cbn [fst snd].
      rewrite spawned_cons_active in H0 by assumption.
      specialize (IH (Emitter.mkframe (Emitter.emitNow fr) (Emitter.accumulator fr)
                        (wrap64 (Emitter.counter fr + 1))) g).
      cbv zeta in IH. cbn [Emitter.emitNow Emitter.accumulator] in IH.
      destruct (IH Hn H0) as (I1 & I2 & I3).
      rewrite I1, I2, I3. auto.
    + assert (He : em && (0 <? Emitter.emitNow fr) = false).
      { unfold spawned in H0. rewrite inactiveCount_cons, Hp in H0.
        pose proof (inactiveCount_nonneg ps).
        destruct em; [|reflexivity]. simpl. apply Z.ltb_ge. lia. }
      rewrite visit_skip by assumption. cbn [fst snd].
      destruct (spawned_cons_skip em (Emitter.emitNow fr) p ps Hn He) as [_ H2].
      destruct (IH fr g Hn H2) as (I1 & I2 & I3).
      rewrite I1, I2, I3, (Particle_Update_inactive dt cfg p Hp). auto.
Qed.

Lemma Emitter_Update_effects dt e g :
  let r := Emitter.Update dt e g in
  let k := Z.to_nat (spawned (Emitter.isEmitting e) (spawnBudget dt e)
                             (Emitter.particles e)) in
  let acc := if Emitter.isEmitting e
             then F32.add (Emitter.mustEmit e) (emission dt e)
             else Emitter.mustEmit e in
  Emitter.mustEmit (snd (fst r)) = decrements k acc
  /\ snd r = draws (6 * k) g
  /\ Forall2 (slot_step dt (Emitter.config e)) (Emitter.particles e)
             (Emitter.particles (snd (fst r)))
  /\ same_shape e (snd (fst r)).
Proof.
  cbv zeta. rewrite Emitter_Update_unfold. cbv zeta. cbn [fst snd].
  cbn [Emitter.mustEmit Emitter.particles].
  match goal with
  | |- context [Emitter.for_each ?c ?em ?d ?ps ?fr ?g0] =>
      pose proof (for_each_effects c em d ps fr g0) as Hx;
      pose proof (for_each_slotwise c em d ps fr g0) as Hy;
      pose proof (for_each_length c em d ps fr g0) as Hz;
      set (R := Emitter.for_each c em d ps fr g0) in *; clearbody R
  end.
  cbv zeta in Hx. cbn [Emitter.emitNow Emitter.accumulator] in Hx.
  destruct (Hx (spawnBudget_range dt e)) as [Hx1 Hx2].
  unfold same_shape. cbn [Emitter.config Emitter.isEmitting Emitter.particles].
  unfold emission. repeat split; assumption.
Qed.

(** X4: [Emitter::Update] works slot by slot and in place.  Every slot of
    the pool after the call comes from the slot at the same index before
    it: a slot that held an active particle holds that particle stepped by
    [Particle::Update]; a free slot either is left exactly as it was or
    holds a particle initialised from the emitter's configuration and
    stepped once.  No particle moves to another slot, and the
    configuration and the emission flag are not written. *)
Theorem Update_acts_slot_by_slot (dt : float) (e : Emitter.t) (g : RNG) :
  let e' := snd (fst (Emitter.Update dt e g)) in
  Forall2 (slot_step dt (Emitter.config e)) (Emitter.particles e)
          (Emitter.particles e')
  /\ Emitter.config e' = Emitter.config e
  /\ Emitter.isEmitting e' = Emitter.isEmitting e.
Proof.
  cbv zeta. destruct (Emitter_Update_effects dt e g) as (_ & _ & H3 & H4 & H5 & _).
  auto.
Qed.

(** X5: what a spawn costs.  With [k] the number of slots the call
    initialises (the spawn budget, as far as free slots are available),
    [Update] leaves in [mustEmit] the accumulator it started from
    ([mustEmit + dt * emissionRate] when emitting, [mustEmit] otherwise)
    decremented [k] times by 1, and it leaves the random source where
    [6 * k] calls of [GetRandomValue(0, RAND_MAX)] bring it: six draws per
    particle, none when nothing is spawned.  Budget that finds no free
    slot stays in the accumulator. *)
Theorem Update_spends_per_spawn (dt : float) (e : Emitter.t) (g : RNG) :
  let r := Emitter.Update dt e g in
  let k := Z.to_nat (spawned (Emitter.isEmitting e) (spawnBudget dt e)
                             (Emitter.particles e)) in
  Emitter.mustEmit (snd (fst r))
  = decrements k (if Emitter.isEmitting e
                  then F32.add (Emitter.mustEmit e) (emission dt e)
                  else Emitter.mustEmit e)
  /\ snd r = draws (6 * k) g.
Proof.
  cbv zeta. destruct (Emitter_Update_effects dt e g) as (H1 & H2 & _).
  split; assumption.
Qed.

Lemma slot_step_settled dt cfg p q :
  slot_step dt cfg p q -> Particle.active q = true -> settled cfg q = true.
Proof.
  intros [p0 Hp | p0 g0 Hp | p0 Hp] Hq.
  - now apply Particle_Update_settled.
  - now apply Particle_Update_settled.
  - congruence.
Qed.

(** X6: after [Emitter::Update] every particle that is active, whether it
    was active before or spawned in this call, is within its lifetime
    ([age > ttl] is false) and, when the configuration enables collision,
    is not below the ground ([position.y < 0] is false).  [Burst] gives
    no such guarantee: it initialises particles without stepping them. *)
Theorem Update_leaves_active_particles_settled
  (dt : float) (e : Emitter.t) (g : RNG) :
  Forall (fun q => Particle.active q = true -> settled (Emitter.config e) q = true)
         (Emitter.particles (snd (fst (Emitter.Update dt e g)))).
Proof.
  destruct (Emitter_Update_effects dt e g) as (_ & _ & H & _).
  induction H as [|p q ps qs Hpq _ IH]; constructor.
  - now apply (slot_step_settled dt _ p).
  - exact IH.
Qed.

Lemma Emitter_Update_no_spawn dt e g :
  spawned (Emitter.isEmitting e) (spawnBudget dt e) (Emitter.particles e) = 0 ->
  Emitter.Update dt e g
  = (fst (fst (Emitter.Update dt e g)),
     stepped dt (if Emitter.isEmitting e
                 then F32.add (Emitter.mustEmit e) (emission dt e)
                 else Emitter.mustEmit e) e,
     g).
Proof.
  intros H0. rewrite Emitter_Update_unfold. cbv zeta. cbn [fst snd].
  match goal with
  | |- context [Emitter.for_each ?c ?em ?d ?ps ?fr ?g0] =>
      pose proof (for_each_no_spawn c em d ps fr g0) as Hx;
      set (R := Emitter.for_each c em d ps fr g0) in *; clearbody R
  end.
  cbv zeta in Hx. cbn [Emitter.emitNow Emitter.accumulator] in Hx.
  destruct (Hx (proj1 (spawnBudget_range dt e)) H0) as (H1 & H2 & H3).
  rewrite H1, H2, H3. reflexivity.
Qed.

(** X7: an [Update] that cannot spawn, because the emitter is stopped, or
    because its budget [emitNow] is 0, or because no slot is free, steps
    every particle of the pool and does nothing else to it: it returns
    the number of slots that were active, leaves the random source
    untouched, and stores the accumulator without any decrement, so an
    emitting emitter keeps adding [dt * emissionRate] to [mustEmit] while
    its pool is full. *)
Theorem Update_without_spawn (dt : float) (e : Emitter.t) (g : RNG) :
  Z.of_nat (length (Emitter.particles e)) < 2 ^ 64 ->
  Emitter.isEmitting e = false
  \/ spawnBudget dt e = 0
  \/ Emitter.inactiveCount (Emitter.particles e) = 0 ->
  Emitter.Update dt e g
  = (Emitter.activeCount (Emitter.particles e),
     stepped dt (if Emitter.isEmitting e
                 then F32.add (Emitter.mustEmit e) (emission dt e)
                 else Emitter.mustEmit e) e,
     g).
Proof.
  intros Hlen Hno.
  assert (H0 : spawned (Emitter.isEmitting e) (spawnBudget dt e) (Emitter.particles e)
               = 0).
  { unfold spawned. pose proof (inactiveCount_nonneg (Emitter.particles e)).
    destruct Hno as [-> | [-> | ->]]; [reflexivity | |];
      destruct (Emitter.isEmitting e); try reflexivity.
    - lia.
    - pose proof (spawnBudget_range dt e). lia. }
  rewrite (Emitter_Update_no_spawn dt e g H0).
  destruct (Emitter_Update_exact dt e g Hlen) as (H1 & _).
  rewrite H1, H0, Z.add_0_r. reflexivity.
Qed.

Lemma add_zero_budget (x : float) :
  is_number x = true -> F32.to_size_t (F32.add F32.zero x) = F32.to_size_t x.
Proof.
  destruct x as [s | s | | s m e]; try discriminate; intros _.
  - now destruct s.
  - reflexivity.
Qed.

Lemma nonneg_finite_number (x : float) :
  F32.nonneg_finite x = true -> is_number x = true.
Proof. destruct x as [s | s | | s m e]; try discriminate; reflexivity. Qed.

Lemma counts_repeat_default (n : nat) :
  Emitter.inactiveCount (repeat Particle.default n) = Z.of_nat n
  /\ Emitter.activeCount (repeat Particle.default n) = 0.
Proof.
  induction n as [|n [IH1 IH2]].
  - split; reflexivity.
  - cbn [repeat]. rewrite inactiveCount_cons, activeCount_cons, IH1, IH2.
    cbn [Particle.active Particle.default]. lia.
Qed.

(** X8: the first [Update] of an emitter that has just been constructed
    and started returns the whole part of [dt * emissionRate], or the
    capacity when that is smaller: the accumulator starts at 0, every
    slot is free, and each unit of budget fills one slot. *)
Theorem first_Update_spawns_whole_part
  (cfg : EmitterConfig.t) (dt : float) (g : RNG) :
  0 <= EmitterConfig.capacity cfg < 2 ^ 64 ->
  let e := Emitter.Start (Emitter.make cfg) in
  F32.nonneg_finite (emission dt e) = true ->
  fst (fst (Emitter.Update dt e g))
  = Z.min (F32.to_size_t (emission dt e)) (EmitterConfig.capacity cfg).
Proof.
  intros Hcap e Hem.
  assert (Hlen : Z.of_nat (length (Emitter.particles e)) = EmitterConfig.capacity cfg).
  { unfold e. cbn [Emitter.Start Emitter.particles]. apply make_length. lia. }
  destruct (Emitter_Update_exact dt e g ltac:(lia)) as (H1 & _).
  rewrite H1.
  assert (Hps : Emitter.particles e
                = repeat Particle.default (Z.to_nat (EmitterConfig.capacity cfg)))
    by reflexivity.
  destruct (counts_repeat_default (Z.to_nat (EmitterConfig.capacity cfg))) as [Hi Ha].
  unfold spawned. rewrite Hps, Ha, Hi.
  change (Emitter.isEmitting e) with true. cbv iota.
  rewrite (spawnBudget_emitting dt e eq_refl).
  change (Emitter.mustEmit e) with F32.zero.
  rewrite add_zero_budget by now apply nonneg_finite_number.
  lia.
Qed.

End UpdateEffects.

(** ** More on [Burst] *)

Section BurstEffects.
Context {P : Platform}.

Lemma activated_nonneg amount emitted ps : 0 <= activated amount emitted ps.
Proof. unfold activated. pose proof (inactiveCount_nonneg ps). lia. Qed.

Lemma Burst_loop_run_active cfg amount emitted p ps g :
  Particle.active p = true ->
  Emitter.Burst_loop cfg amount emitted (p :: ps) g
  = (p :: fst (Emitter.Burst_loop cfg amount emitted ps g),
     snd (Emitter.Burst_loop cfg amount emitted ps g)).
Proof.
  intros Hp. simpl. rewrite Hp. simpl. rewrite bind_run. reflexivity.
Qed.

Lemma Burst_loop_run_inactive cfg amount emitted p ps g :
  Particle.active p = false ->
  snd (Emitter.Burst_loop cfg amount emitted (p :: ps) g)
  = if wrap64 amount <=? wrap64 (emitted + 1) then draws 6 g
    else snd (Emitter.Burst_loop cfg amount (wrap64 (emitted + 1)) ps (draws 6 g)).
Proof.
  intros Hp. simpl. rewrite Hp. simpl. rewrite bind_run, Particle_Init_draws.
  destruct (wrap64 amount <=? wrap64 (emitted + 1)).
  - reflexivity.
  - rewrite bind_run. reflexivity.
Qed.

Lemma Burst_loop_draws cfg amount ps : forall emitted g,
  0 <= emitted ->
  emitted + Z.of_nat (length ps) < 2 ^ 64 ->
  snd (Emitter.Burst_loop cfg amount emitted ps g)
  = draws (6 * Z.to_nat (activated amount emitted ps)) g.
Proof.
  induction ps as [|p ps IH]; intros emitted g He Hlen.
  - unfold activated, Emitter.inactiveCount. simpl.
    rewrite Z.min_r by lia. reflexivity.
  - simpl length in Hlen.
    pose proof (inactiveCount_nonneg ps) as Hi.
    pose proof (wrap64_range amount) as Hk.
    destruct (Particle.active p) eqn:Hp.
    + rewrite Burst_loop_run_active by assumption. cbn [snd].
      rewrite IH by lia.
      unfold activated. rewrite inactiveCount_cons, Hp, Z.add_0_l. reflexivity.
    + rewrite Burst_loop_run_inactive by assumption.
      rewrite (wrap64_small (emitted + 1)) by lia.
      unfold activated. rewrite inactiveCount_cons, Hp.
      destruct (wrap64 amount <=? emitted + 1) eqn:Hstop.
      * apply Z.leb_le in Hstop.
        replace (Z.min (Z.max 1 (wrap64 amount - emitted)) (1 + Emitter.inactiveCount ps))
          with 1 by lia.
        reflexivity.
      * apply Z.leb_gt in Hstop.
        rewrite IH by lia. unfold activated.
        replace (Z.min (Z.max 1 (wrap64 amount - emitted)) (1 + Emitter.inactiveCount ps))
          with (1 + Z.min (Z.max 1 (wrap64 amount - (emitted + 1))) (Emitter.inactiveCount ps))
          by lia.
        set (k := Z.min _ _).
        assert (0 <= k) by (unfold k; lia).
        replace (6 * Z.to_nat (1 + k))%nat with (6 * Z.to_nat k + 6)%nat by lia.
        now rewrite draws_add.
Qed.

Lemma Emitter_Burst_run e g :
  Emitter.Burst e g
  = let a := IntRange.RandomValue (EmitterConfig.burst (Emitter.config e)) g in
    let r := Emitter.Burst_loop (Emitter.config e) (fst a) 0 (Emitter.particles e)
               (snd a) in
    (Emitter.mk (Emitter.config e) (Emitter.mustEmit e) (Emitter.isEmitting e) (fst r),
     snd r).
Proof.
  unfold Emitter.Burst. rewrite !bind_run. reflexivity.
Qed.

(** X9: the random draws of [Burst].  It draws the amount with one
    [GetRandomValue(burst.min, burst.max)] and then six values per
    particle it initialises, [min (max 1 amount) inactiveCount] particles
    in all, and nothing more. *)
Theorem Burst_draws_per_particle (e : Emitter.t) (g : RNG) :
  Z.of_nat (length (Emitter.particles e)) < 2 ^ 64 ->
  let a := GetRandomValue (IntRange.min (EmitterConfig.burst (Emitter.config e)))
                          (IntRange.max (EmitterConfig.burst (Emitter.config e))) g in
  let n := Z.min (Z.max 1 (wrap64 (fst a)))
                 (Emitter.inactiveCount (Emitter.particles e)) in
  snd (Emitter.Burst e g) = draws (6 * Z.to_nat n) (snd a).
Proof.
  intros Hlen. cbv zeta. rewrite Emitter_Burst_run. cbv zeta. cbn [snd].
  unfold IntRange.RandomValue.
  rewrite Burst_loop_draws by lia.
  unfold activated. now rewrite Z.sub_0_r.
Qed.

(** X10: [Burst] reads neither [isEmitting] nor [mustEmit] and writes
    neither.  On two emitters that differ only in these two members it
    produces the same pool and leaves the random source in the same
    state; it fires on a stopped emitter as on a started one, and takes
    nothing from the emission accumulator. *)
Theorem Burst_ignores_emission_state
  (e : Emitter.t) (acc : float) (emitting : bool) (g : RNG) :
  let e0 := Emitter.mk (Emitter.config e) acc emitting (Emitter.particles e) in
  Emitter.particles (fst (Emitter.Burst e0 g))
  = Emitter.particles (fst (Emitter.Burst e g))
  /\ snd (Emitter.Burst e0 g) = snd (Emitter.Burst e g)
  /\ Emitter.mustEmit (fst (Emitter.Burst e0 g)) = acc
  /\ Emitter.isEmitting (fst (Emitter.Burst e0 g)) = emitting
  /\ Emitter.config (fst (Emitter.Burst e0 g)) = Emitter.config e.
Proof.
  cbv zeta. rewrite !Emitter_Burst_run. cbv zeta. simpl. auto.
Qed.

Lemma activeCount_full (ps : list Particle.t) :
  Emitter.activeCount ps = Z.of_nat (length ps) ->
  Forall (fun p => Particle.active p = true) ps.
Proof.
  induction ps as [|p ps IH]; intros H.
  - constructor.
  - rewrite activeCount_cons in H. simpl length in H.
    pose proof (activeCount_le_length ps).
    destruct (Particle.active p) eqn:Hp.
    + constructor; [assumption | apply IH; lia].
    + lia.
Qed.

(** X11: a burst amount that is negative, or at least the number of free
    slots, fills the pool.  The test [++emitted >= amount] compares a
    [size_t] with an [int], so a negative amount is converted to a value
    above [2^63] that the counter never reaches: every slot is active
    after the call. *)
Theorem Burst_fills_the_pool (e : Emitter.t) (g : RNG) :
  Z.of_nat (length (Emitter.particles e)) < 2 ^ 63 ->
  let amount := fst (IntRange.RandomValue (EmitterConfig.burst (Emitter.config e)) g) in
  - 2 ^ 31 <= amount < 2 ^ 31 ->
  amount < 0 \/ Emitter.inactiveCount (Emitter.particles e) <= amount ->
  Forall (fun p => Particle.active p = true)
         (Emitter.particles (fst (Emitter.Burst e g))).
Proof.
  intros Hlen amount Hint Hbig.
  assert (Hw : Emitter.inactiveCount (Emitter.particles e) <= wrap64 amount).
  { pose proof (count_split (Emitter.particles e)) as Hs.
    pose proof (activeCount_nonneg (Emitter.particles e)) as Ha.
    assert (H63 : 2 ^ 64 = 2 * 2 ^ 63) by reflexivity.
    assert (H31 : 2 ^ 31 < 2 ^ 63) by reflexivity.
    destruct (Z_lt_le_dec amount 0) as [Hneg | Hpos].
    - assert (Hm : wrap64 amount = amount + 2 ^ 64).
      { unfold wrap64. symmetry. apply (Z.mod_unique_pos _ _ (-1)); lia. }
      lia.
    - rewrite wrap64_small by lia. destruct Hbig; lia. }
  apply activeCount_full.
  rewrite Emitter_Burst_run. cbv zeta. cbn [fst Emitter.particles].
  rewrite Burst_loop_length.
  match goal with
  | |- context [Emitter.Burst_loop ?c ?a 0 ?ps ?g0] =>
      pose proof (Burst_loop_spec c a ps 0 g0) as H
  end.
  cbv zeta in H. destruct H as (_ & H2 & _); [lia | lia |].
  rewrite H2. unfold activated. rewrite Z.sub_0_r. fold amount.
  pose proof (count_split (Emitter.particles e)) as Hs.
  pose proof (inactiveCount_nonneg (Emitter.particles e)) as Hi.
  destruct (Z.eq_dec (Emitter.inactiveCount (Emitter.particles e)) 0) as [H0 | H0].
  - rewrite H0 in *. lia.
  - lia.
Qed.

Lemma Burst_loop_full cfg amount ps : forall emitted g,
  Forall (fun p => Particle.active p = true) ps ->
  Emitter.Burst_loop cfg amount emitted ps g = (ps, g).
Proof.
  induction ps as [|p ps IH]; intros emitted g Hall.
  - reflexivity.
  - inversion Hall as [|? ? Hp Hps]; subst.
    rewrite Burst_loop_run_active by assumption. now rewrite IH.
Qed.

(** X12: on a pool without a free slot [Burst] changes nothing in the
    emitter; all it does is draw the amount, one value from the random
    source. *)
Theorem Burst_on_full_pool (e : Emitter.t) (g : RNG) :
  Forall (fun p => Particle.active p = true) (Emitter.particles e) ->
  Emitter.Burst e g
  = (e, snd (GetRandomValue (IntRange.min (EmitterConfig.burst (Emitter.config e)))
                            (IntRange.max (EmitterConfig.burst (Emitter.config e))) g)).
Proof.
  intros Hall. rewrite Emitter_Burst_run. cbv zeta.
  rewrite Burst_loop_full by assumption. cbn [fst snd].
  unfold IntRange.RandomValue. now destruct e.
Qed.

Lemma Emitter_Burst_shape e g : same_shape e (fst (Emitter.Burst e g)).
Proof.
  rewrite Emitter_Burst_run. cbv zeta. unfold same_shape. cbn.
  rewrite Burst_loop_length. auto.
Qed.

Lemma Emitter_Burst_active e g :
  Z.of_nat (length (Emitter.particles e)) < 2 ^ 64 ->
  Emitter.activeCount (Emitter.particles e)
  <= Emitter.activeCount (Emitter.particles (fst (Emitter.Burst e g))).
Proof.
  intros Hlen. rewrite Emitter_Burst_run. cbv zeta. cbn [fst Emitter.particles].
  match goal with
  | |- context [Emitter.Burst_loop ?c ?a 0 ?ps ?g0] =>
      pose proof (Burst_loop_spec c a ps 0 g0) as H;
      pose proof (activated_nonneg a 0 ps)
  end.
  cbv zeta in H. destruct H as (_ & H2 & _); [lia | lia |].
  rewrite H2. lia.
Qed.

End BurstEffects.

(** ** Drawing *)

Section DrawProperties.
Context {P : Platform}.

Lemma drawnPositions_app (xs ys : list RenderCall) :
  drawnPositions (xs ++ ys) = drawnPositions xs ++ drawnPositions ys.
Proof. unfold drawnPositions. apply flat_map_app. Qed.

Lemma drawnPositions_slots cfg ps :
  drawnPositions (flat_map (Emitter.Draw_slot cfg) ps)
  = map Particle.position (filter Particle.active ps).
Proof.
  induction ps as [|p ps IH].
  - reflexivity.
  - cbn [flat_map filter]. rewrite drawnPositions_app, IH.
    unfold Emitter.Draw_slot. destruct (Particle.active p); reflexivity.
Qed.

Lemma bracketed_slots cfg ps rest :
  bracketed true (flat_map (Emitter.Draw_slot cfg) ps ++ rest) = bracketed true rest.
Proof.
  induction ps as [|p ps IH].
  - reflexivity.
  - cbn [flat_map]. rewrite <- app_assoc.
    unfold Emitter.Draw_slot at 1. destruct (Particle.active p); simpl; exact IH.
Qed.

Lemma bracketed_Draw e rest :
  bracketed false (Emitter.Draw e ++ rest) = bracketed false rest.
Proof.
  unfold Emitter.Draw. cbn [app bracketed negb andb].
  rewrite <- app_assoc, bracketed_slots. reflexivity.
Qed.

Lemma length_slots cfg ps :
  Z.of_nat (length (flat_map (Emitter.Draw_slot cfg) ps)) = Emitter.activeCount ps.
Proof.
  induction ps as [|p ps IH].
  - reflexivity.
  - cbn [flat_map]. rewrite length_app, activeCount_cons, Nat2Z.inj_add, IH.
    unfold Emitter.Draw_slot. destruct (Particle.active p); reflexivity.
Qed.

Lemma Emitter_Draw_positions e :
  drawnPositions (Emitter.Draw e)
  = map Particle.position (filter Particle.active (Emitter.particles e)).
Proof.
  unfold Emitter.Draw.
  change (BeginBlendMode ?m :: ?l) with ([BeginBlendMode m] ++ l).
  rewrite !drawnPositions_app, drawnPositions_slots. cbn. now rewrite app_nil_r.
Qed.

(** X13: [Emitter::Draw] issues one [DrawModel] per active particle, in
    pool order and at the particle's position, and nothing for a free
    slot; the calls are enclosed in one [BeginBlendMode] ...
    [EndBlendMode] pair, so the call makes [activeCount + 2] render calls
    in all, two on an empty pool. *)
Theorem Draw_one_model_per_active_particle (e : Emitter.t) :
  drawnPositions (Emitter.Draw e)
  = map Particle.position (filter Particle.active (Emitter.particles e))
  /\ Z.of_nat (length (Emitter.Draw e))
     = Emitter.activeCount (Emitter.particles e) + 2
  /\ bracketed false (Emitter.Draw e) = true.
Proof.
  split; [|split].
  - apply Emitter_Draw_positions.
  - unfold Emitter.Draw. cbn [length].
    rewrite length_app, !Nat2Z.inj_succ, Nat2Z.inj_add.
    rewrite length_slots. simpl length. lia.
  - rewrite <- (app_nil_r (Emitter.Draw e)). now rewrite bracketed_Draw.
Qed.

Lemma System_Draw_count s :
  Z.of_nat (length (drawnPositions (ParticleSystem.Draw s))) = totalActive s.
Proof.
  unfold ParticleSystem.Draw, totalActive.
  induction s as [|e s IH].
  - reflexivity.
  - cbn [flat_map map fold_right].
    rewrite drawnPositions_app, length_app, Nat2Z.inj_add, IH.
    rewrite Emitter_Draw_positions, length_map. reflexivity.
Qed.

Lemma System_Draw_bracketed s :
  bracketed false (ParticleSystem.Draw s) = true.
Proof.
  unfold ParticleSystem.Draw. induction s as [|e s IH].
  - reflexivity.
  - cbn [flat_map]. now rewrite bracketed_Draw.
Qed.

(** X14: [ParticleSystem::Draw] draws the emitters in the order of their
    registration, the emitter registered last coming last; it issues as
    many [DrawModel] calls as the system has active particles; and the
    sequence of calls keeps the blend-mode discipline: every [DrawModel]
    lies inside a blend section, sections are not nested, and none is
    left open. *)
Theorem System_Draw_in_registration_order (s : ParticleSystem.t) (e : Emitter.t) :
  ParticleSystem.Draw (ParticleSystem.Register e s)
  = ParticleSystem.Draw s ++ Emitter.Draw e
  /\ Z.of_nat (length (drawnPositions (ParticleSystem.Draw s))) = totalActive s
  /\ bracketed false (ParticleSystem.Draw s) = true.
Proof.
  split; [|split].
  - unfold ParticleSystem.Draw, ParticleSystem.Register.
    rewrite flat_map_app. simpl. now rewrite app_nil_r.
  - apply System_Draw_count.
  - apply System_Draw_bracketed.
Qed.

End DrawProperties.

(** ** The system as a whole *)

Section SystemEffects.
Context {P : Platform}.

Lemma Update_from_cons dt e s c g :
  ParticleSystem.Update_from dt (e :: s) c g
  = let r := Emitter.Update dt e g in
    let r' := ParticleSystem.Update_from dt s (wrap64 (c + fst (fst r))) (snd r) in
    (fst (fst r'), snd (fst r) :: snd (fst r'), snd r').
Proof. simpl. rewrite !bind_run. reflexivity. Qed.

Lemma returned_cons dt e s g :
  ParticleSystem.returned dt (e :: s) g
  = let r := Emitter.Update dt e g in
    let r' := ParticleSystem.returned dt s (snd r) in
    (fst (fst r) :: fst r', snd r').
Proof. simpl. rewrite !bind_run. reflexivity. Qed.

Lemma Burst_cons e s g :
  ParticleSystem.Burst (e :: s) g
  = let r := Emitter.Burst e g in
    let r' := ParticleSystem.Burst s (snd r) in
    (fst r :: fst r', snd r').
Proof. simpl. rewrite !bind_run. reflexivity. Qed.

Lemma same_shape_slots s s' :
  Forall2 same_shape s s' -> totalSlots s' = totalSlots s.
Proof.
  unfold totalSlots. induction 1 as [|e e' s s' (_ & _ & Hl) _ IH]; simpl.
  - reflexivity.
  - now rewrite IH, Hl.
Qed.

Lemma totalSlots_nonneg s : 0 <= totalSlots s.
Proof. unfold totalSlots. induction s; simpl; lia. Qed.

Lemma totalSlots_cons e s :
  totalSlots (e :: s) = Z.of_nat (length (Emitter.particles e)) + totalSlots s.
Proof. reflexivity. Qed.

Lemma totalActive_cons e s :
  totalActive (e :: s) = Emitter.activeCount (Emitter.particles e) + totalActive s.
Proof. reflexivity. Qed.

Lemma totalActive_le_slots s : 0 <= totalActive s <= totalSlots s.
Proof.
  induction s as [|e s IH].
  - unfold totalActive, totalSlots. simpl. lia.
  - rewrite totalActive_cons, totalSlots_cons.
    pose proof (activeCount_le_length (Emitter.particles e)).
    pose proof (activeCount_nonneg (Emitter.particles e)). lia.
Qed.

Lemma Update_from_spec dt s : forall c g,
  0 <= c -> c + totalSlots s < 2 ^ 64 ->
  let r := ParticleSystem.Update_from dt s c g in
  fst (fst r) = c + fold_right Z.add 0 (fst (ParticleSystem.returned dt s g))
  /\ c + totalActive (snd (fst r)) <= fst (fst r) <= c + totalSlots s
  /\ Forall2 same_shape s (snd (fst r)).
Proof.
  induction s as [|e s IH]; intros c g Hc Hlen; cbv zeta.
  - simpl. unfold totalActive, totalSlots. simpl. repeat split; try lia. constructor.
  - rewrite Update_from_cons, returned_cons. cbv zeta. cbn [fst snd].
    rewrite totalSlots_cons in *.
    pose proof (totalSlots_nonneg s) as Hs.
    assert (Hl : Z.of_nat (length (Emitter.particles e)) < 2 ^ 64) by lia.
    destruct (Emitter_Update_exact dt e g Hl) as (H1 & H2 & _).
    destruct (Emitter_Update_effects dt e g) as (_ & _ & _ & Hshape).
    pose proof (spawnBudget_range dt e) as Hb.
    pose proof (spawned_nonneg (Emitter.isEmitting e) (spawnBudget dt e)
                  (Emitter.particles e) (proj1 Hb)) as Hk.
    pose proof (spawned_le_inactive (Emitter.isEmitting e) (spawnBudget dt e)
                  (Emitter.particles e)) as Hk'.
    pose proof (count_split (Emitter.particles e)) as Hcs.
    pose proof (activeCount_nonneg (Emitter.particles e)) as Ha.
    set (n := fst (fst (Emitter.Update dt e g))) in *.
    set (e' := snd (fst (Emitter.Update dt e g))) in *.
    set (g' := snd (Emitter.Update dt e g)) in *.
    rewrite (wrap64_small (c + n)) by lia.
    specialize (IH (c + n) g' ltac:(lia) ltac:(lia)). cbv zeta in IH.
    destruct IH as (I1 & I2 & I3).
    rewrite totalActive_cons. cbn [fold_right].
    repeat split; try lia.
    constructor; assumption.
Qed.

(** X15: in the sequential traversal of the emitters, and for a system
    of fewer than [2^64] slots in all, [ParticleSystem::Update] returns
    the sum of the values its emitters' [Update] calls return, without
    wrap-around; the value lies between the number of particles active
    after the call and the total number of slots; and every emitter
    keeps its configuration, its emission flag and its pool size. *)
Theorem System_Update_adds_up (dt : float) (s : ParticleSystem.t) (g : RNG) :
  totalSlots s < 2 ^ 64 ->
  let r := ParticleSystem.Update dt s g in
  fst (fst r) = fold_right Z.add 0 (fst (ParticleSystem.returned dt s g))
  /\ totalActive (snd (fst r)) <= fst (fst r) <= totalSlots s
  /\ Forall2 same_shape s (snd (fst r)).
Proof.
  intros Hlen. cbv zeta. unfold ParticleSystem.Update.
  destruct (Update_from_spec dt s 0 g ltac:(lia) ltac:(lia)) as (H1 & H2 & H3).
  rewrite H1. repeat split; try assumption; lia.
Qed.

Lemma Update_from_stopped dt s : forall c g,
  Forall (fun e => Emitter.isEmitting e = false) s ->
  snd (fst (ParticleSystem.Update_from dt s c g))
  = map (fun e => stepped dt (Emitter.mustEmit e) e) s
  /\ snd (ParticleSystem.Update_from dt s c g) = g.
Proof.
  induction s as [|e s IH]; intros c g Hall.
  - simpl. auto.
  - inversion Hall as [|? ? He Hs]; subst.
    rewrite Update_from_cons. cbv zeta. cbn [fst snd map].
    assert (H0 : spawned (Emitter.isEmitting e) (spawnBudget dt e) (Emitter.particles e) = 0)
      by (unfold spawned; now rewrite He).
    rewrite (Emitter_Update_no_spawn dt e g H0). cbn [fst snd]. rewrite He.
    destruct (IH (wrap64 (c + fst (fst (Emitter.Update dt e g)))) g Hs) as [I1 I2].
    rewrite I1, I2. auto.
Qed.

Lemma Stop_stopped s :
  Forall (fun e => Emitter.isEmitting e = false) (ParticleSystem.Stop s).
Proof.
  unfold ParticleSystem.Stop. apply Forall_forall. intros e He.
  apply in_map_iff in He as (e0 & <- & _). reflexivity.
Qed.

Lemma totalSlots_Stop s : totalSlots (ParticleSystem.Stop s) = totalSlots s.
Proof.
  unfold totalSlots, ParticleSystem.Stop. rewrite map_map. reflexivity.
Qed.

Lemma totalActive_Stop s : totalActive (ParticleSystem.Stop s) = totalActive s.
Proof.
  unfold totalActive, ParticleSystem.Stop. rewrite map_map. reflexivity.
Qed.

Lemma returned_stopped dt s : forall g,
  totalSlots s < 2 ^ 64 ->
  Forall (fun e => Emitter.isEmitting e = false) s ->
  fold_right Z.add 0 (fst (ParticleSystem.returned dt s g)) = totalActive s.
Proof.
  induction s as [|e s IH]; intros g Hlen Hall.
  - reflexivity.
  - inversion Hall as [|? ? He Hs]; subst.
    rewrite returned_cons. cbv zeta. cbn [fst fold_right].
    rewrite totalSlots_cons in Hlen.
    pose proof (totalSlots_nonneg s).
    assert (Hl : Z.of_nat (length (Emitter.particles e)) < 2 ^ 64) by lia.
    destruct (Emitter_Update_exact dt e g Hl) as (H1 & _).
    rewrite H1, IH by (assumption || lia).
    unfold spawned. rewrite He, totalActive_cons. lia.
Qed.

(** X16: [Stop] ends the spawning, not the animation.  An [Update] right
    after [ParticleSystem::Stop] steps every particle of every emitter,
    spawns none, returns the number of particles that were active, does
    not read the random source, and leaves every emitter's [mustEmit] as
    it was, so a later [Start] resumes from the budget already
    accumulated. *)
Theorem stopped_system_keeps_animating
  (dt : float) (s : ParticleSystem.t) (g : RNG) :
  totalSlots s < 2 ^ 64 ->
  ParticleSystem.Update dt (ParticleSystem.Stop s) g
  = (totalActive s,
     map (fun e => stepped dt (Emitter.mustEmit e) (Emitter.Stop e)) s,
     g).
Proof.
  intros Hlen.
  pose proof (Stop_stopped s) as Hst.
  destruct (Update_from_stopped dt (ParticleSystem.Stop s) 0 g Hst) as [H1 H2].
  destruct (Update_from_spec dt (ParticleSystem.Stop s) 0 g ltac:(lia)) as (H3 & _).
  { rewrite totalSlots_Stop. lia. }
  unfold ParticleSystem.Update.
  destruct (ParticleSystem.Update_from dt (ParticleSystem.Stop s) 0 g) as [[n s'] g'].
  cbn [fst snd] in *. subst s' g'. rewrite H3.
  rewrite returned_stopped by (rewrite ?totalSlots_Stop; assumption).
  rewrite totalActive_Stop. unfold ParticleSystem.Stop. rewrite map_map.
  reflexivity.
Qed.

Lemma System_Burst_shape s : forall g,
  Forall2 same_shape s (fst (ParticleSystem.Burst s g)).
Proof.
  induction s as [|e s IH]; intros g.
  - constructor.
  - rewrite Burst_cons. cbv zeta. cbn [fst]. constructor.
    + apply Emitter_Burst_shape.
    + apply IH.
Qed.

Lemma System_Burst_active s : forall g,
  totalSlots s < 2 ^ 64 ->
  totalActive s <= totalActive (fst (ParticleSystem.Burst s g)).
Proof.
  induction s as [|e s IH]; intros g Hlen.
  - simpl. lia.
  - rewrite Burst_cons. cbv zeta. cbn [fst].
    rewrite totalSlots_cons in Hlen.
    pose proof (totalSlots_nonneg s).
    rewrite !totalActive_cons.
    pose proof (Emitter_Burst_active e g ltac:(lia)).
    pose proof (IH (snd (Emitter.Burst e g)) ltac:(lia)).
    lia.
Qed.

(** X17: [ParticleSystem::Burst] bursts every emitter and changes nothing
    but the pools: each emitter keeps its configuration, its emission
    flag, its pool size and its [mustEmit]; no particle is deactivated,
    so the number of active particles does not decrease, and it stays
    within the total number of slots. *)
Theorem System_Burst_keeps_shape (s : ParticleSystem.t) (g : RNG) :
  totalSlots s < 2 ^ 64 ->
  let s' := fst (ParticleSystem.Burst s g) in
  Forall2 same_shape s s'
  /\ Forall2 (fun e e' => Emitter.mustEmit e' = Emitter.mustEmit e) s s'
  /\ totalActive s <= totalActive s' <= totalSlots s.
Proof.
  intros Hlen. cbv zeta.
  pose proof (System_Burst_shape s g) as Hs.
  split; [exact Hs | split].
  - clear. revert g. induction s as [|e s IH]; intros g.
    + constructor.
    + rewrite Burst_cons. cbv zeta. cbn [fst]. constructor; [|apply IH].
      rewrite Emitter_Burst_run. reflexivity.
  - split; [now apply System_Burst_active|].
    rewrite <- (same_shape_slots _ _ Hs). apply totalActive_le_slots.
Qed.

(** *** The frame loop *)

Lemma frames_cons dt dts s g :
  Demo.frames (dt :: dts) s g
  = let r := ParticleSystem.Update dt s g in
    let r' := Demo.frames dts (snd (fst r)) (snd r) in
    ((fst (fst r), ParticleSystem.Draw (snd (fst r))) :: fst r', snd r').
Proof. simpl. rewrite !bind_run. reflexivity. Qed.

Lemma frames_spec dts : forall s g,
  totalSlots s < 2 ^ 64 ->
  Forall (fun fr => Z.of_nat (length (drawnPositions (snd fr))) <= fst fr
                    /\ fst fr <= totalSlots s
                    /\ bracketed false (snd fr) = true)
         (fst (Demo.frames dts s g)).
Proof.
  induction dts as [|dt dts IH]; intros s g Hlen.
  - constructor.
  - rewrite frames_cons. cbv zeta. cbn [fst].
    destruct (Update_from_spec dt s 0 g ltac:(lia) ltac:(lia)) as (_ & H2 & H3).
    fold (ParticleSystem.Update dt s g) in H2, H3.
    constructor.
    + cbn [fst snd]. rewrite System_Draw_count, System_Draw_bracketed.
      repeat split; lia.
    + rewrite <- (same_shape_slots _ _ H3). apply IH.
      rewrite (same_shape_slots _ _ H3). assumption.
Qed.

(** X18: in the frame loop of [main], [Update] then [Draw] in every
    frame, the number of [DrawModel] calls of a frame never exceeds the
    value [Update] returned in that frame (the particles that expired in
    the frame were counted and are not drawn), that value never exceeds
    the total number of slots, and every frame's calls keep the
    blend-mode discipline; for any system of fewer than [2^64] slots,
    any frame times and any random source. *)
Theorem frame_loop_draws_what_Update_counted
  (dts : list float) (s : ParticleSystem.t) (g : RNG) :
  totalSlots s < 2 ^ 64 ->
  Forall (fun fr => Z.of_nat (length (drawnPositions (snd fr))) <= fst fr
                    /\ fst fr <= totalSlots s
                    /\ bracketed false (snd fr) = true)
         (fst (Demo.frames dts s g)).
Proof. apply frames_spec. Qed.

Lemma demo_slots (fireModel smokeModel emberModel : Model) :
  totalSlots (Demo.fireEffectSystem fireModel smokeModel emberModel) = 900.
Proof. vm_compute. reflexivity. Qed.

(** X19: the demo.  The system that [main] builds has its three emitters
    emitting, with pools of 500, 300 and 100 slots; whatever the models,
    the frame times and the random source, no frame of its loop draws
    more than 900 particles, [Update] never returns more than 900, and
    every frame's calls keep the blend-mode discipline. *)
Theorem demo_draws_at_most_900_particles
  (fireModel smokeModel emberModel : Model) (dts : list float) (g : RNG) :
  let s := Demo.fireEffectSystem fireModel smokeModel emberModel in
  map Emitter.isEmitting s = [true; true; true]
  /\ map (fun e => Z.of_nat (length (Emitter.particles e))) s = [500; 300; 100]
  /\ Forall (fun fr => Z.of_nat (length (drawnPositions (snd fr))) <= fst fr
                       /\ fst fr <= 900
                       /\ bracketed false (snd fr) = true)
            (fst (Demo.frames dts s g)).
Proof.
  cbv zeta. split; [reflexivity | split; [vm_compute; reflexivity |]].
  rewrite <- (demo_slots fireModel smokeModel emberModel).
  apply frames_spec. rewrite demo_slots. reflexivity.
Qed.

End SystemEffects.

(** ** Point ranges and constant channels *)

Lemma sub_self (x : float) : is_number x = true -> F32.sub x x = S754_zero false.
Proof.
  destruct x as [s | s | | s m e]; try discriminate; intros _.
  - now destruct s.
  - unfold F32.sub, SFsub. rewrite Z.sub_diag. reflexivity.
Qed.

Lemma mul_zero_r (q : float) :
  is_number q = true -> exists s, F32.mul q (S754_zero false) = S754_zero s.
Proof.
  destruct q as [s | s | | s m e]; try discriminate; intros _; simpl; eauto.
Qed.

Lemma mul_zero_l (q : float) :
  is_number q = true -> exists s, F32.mul (S754_zero false) q = S754_zero s.
Proof.
  destruct q as [s | s | | s m e]; try discriminate; intros _; simpl; eauto.
Qed.

Lemma eqb_refl_number (x : float) : is_number x = true -> F32.eqb x x = true.
Proof.
  intros H. unfold F32.eqb, SFeqb.
  destruct (SFcompare_refl x) as [-> | Hn]; [reflexivity|].
  destruct x; try discriminate; simpl in Hn; discriminate.
Qed.

Lemma add_zero_l (s : bool) (x : float) :
  is_number x = true ->
  F32.eqb (F32.add (S754_zero s) x) x = true
  /\ (x <> S754_zero true -> F32.add (S754_zero s) x = x).
Proof.
  destruct x as [sx | sx | | sx m e]; try discriminate; intros _.
  - destruct s, sx; simpl; split; try reflexivity; congruence.
  - split; [now apply eqb_refl_number | reflexivity].
Qed.

Lemma fade_channel_constant (c : Z) (fraction : float) :
  0 <= c < 256 -> is_number fraction = true ->
  Emitter.fade_channel c c fraction = c.
Proof.
  intros Hc Hf. unfold Emitter.fade_channel. rewrite Z.sub_diag.
  change (F32.of_Z 0) with (S754_zero false).
  destruct (mul_zero_l _ Hf) as [s ->].
  pose proof (all_below_spec 256 fade_zero_sum_ok fade_zero_sum c Hc) as Gs.
  unfold fade_zero_sum_ok in Gs. apply andb_true_iff in Gs as [Gs0 Gs1].
  apply Z.eqb_eq in Gs0. apply Z.eqb_eq in Gs1.
  now destruct s.
Qed.

Section Samplers.
Context {P : Platform}.

(** X20: a range whose two ends are the same number yields that number
    at every draw, as the demo's [originAcceleration = {0, 0}] of the
    smoke and ember layers: the scaled fraction is multiplied by
    [max - min = 0] and a zero is added to [min].  The drawn fraction
    [(float)n / (float)RAND_MAX] has to be a number (with [RAND_MAX = 0]
    it would be an infinity or a NaN); the result compares equal to
    [min], and is [min] itself unless [min] is the negative zero. *)
Theorem RandomValue_of_point_range (rg : FloatRange.t) (g : RNG) :
  let n := fst (GetRandomValue 0 RAND_MAX g) in
  let v := fst (FloatRange.RandomValue rg g) in
  FloatRange.max rg = FloatRange.min rg ->
  is_number (FloatRange.min rg) = true ->
  is_number (F32.div (F32.of_Z n) (F32.of_Z RAND_MAX)) = true ->
  F32.eqb v (FloatRange.min rg) = true
  /\ (FloatRange.min rg <> S754_zero true -> v = FloatRange.min rg).
Proof.
  intros n v Hmax Hmin Hq. subst v.
  unfold FloatRange.RandomValue. rewrite bind_run. unfold ret. cbn [fst].
  fold n. rewrite Hmax, (sub_self _ Hmin).
  destruct (mul_zero_r _ Hq) as [s ->].
  now apply add_zero_l.
Qed.

End Samplers.

(** X21: a channel that has the same value in the start and in the end
    color keeps that value at every fraction that is a number, as the
    red, green and blue of the demo's ember layer, where only alpha
    fades: [(c - c) * fraction + c] is [c] exactly. *)
Theorem LinearFade_keeps_constant_channels
  (c1 c2 : Color) (fraction : float) :
  Color.wf c1 -> is_number fraction = true ->
  let c := Emitter.LinearFade c1 c2 fraction in
  (Color.r c2 = Color.r c1 -> Color.r c = Color.r c1)
  /\ (Color.g c2 = Color.g c1 -> Color.g c = Color.g c1)
  /\ (Color.b c2 = Color.b c1 -> Color.b c = Color.b c1)
  /\ (Color.a c2 = Color.a c1 -> Color.a c = Color.a c1).
Proof.
  intros (Hr & Hg & Hb & Ha) Hf. cbv zeta. unfold Emitter.LinearFade.
  cbn [Color.r Color.g Color.b Color.a].
  repeat split; intros ->; now apply fade_channel_constant.
Qed.

(** ** The emission direction *)

Lemma mul_zero_any_r (q : float) (s0 : bool) :
  is_number q = true -> is_zero (F32.mul q (S754_zero s0)) = true.
Proof. destruct q as [s | s | | s m e]; try discriminate; reflexivity. Qed.

Lemma add_zeros (a b : float) :
  is_zero a = true -> is_zero b = true -> is_zero (F32.add a b) = true.
Proof.
  destruct a as [sa | | |]; try discriminate.
  destruct b as [sb | | |]; try discriminate.
  intros _ _. now destruct sa, sb.
Qed.

Lemma opp_number (q : float) : is_number q = true -> is_number (F32.opp q) = true.
Proof. destruct q; try discriminate; reflexivity. Qed.

Lemma sub_zero_r (a z : float) : is_zero z = true -> same_value (F32.sub a z) a.
Proof.
  destruct z as [sz | | |]; try discriminate. intros _.
  destruct a as [sa | sa | | sa m e]; try (left; reflexivity).
  right. split; [now destruct sa, sz | reflexivity].
Qed.

Lemma add_zero_r (a z : float) : is_zero z = true -> same_value (F32.add a z) a.
Proof.
  destruct z as [sz | | |]; try discriminate. intros _.
  destruct a as [sa | sa | | sa m e]; try (left; reflexivity).
  right. split; [now destruct sa, sz | reflexivity].
Qed.

Section Direction.
Context {P : Platform}.

(** X22: [Rotate] turns about the Y axis first and about the X axis
    second, so on a direction along the Y axis, [(0, y, 0)] as in the
    demo and the README, the first turn does nothing.  Whatever
    [angleY], the result has x component 0 and is
    [(0, cos(radX) * y, sin(radX) * y)] up to the sign of zeros: the
    directions that [Init] draws for such an emitter all lie in the YZ
    plane, and the [velocityAngle] range has no effect on them.  The
    values of [cosf] and [sinf] at the two angles are taken to be
    numbers. *)
Theorem Rotate_of_vertical_direction
  (y angleX angleY : float) (sx sz : bool) :
  let v := Vector3.mk (S754_zero sx) y (S754_zero sz) in
  let radX := F32.mul angleX DEG2RAD in
  let radY := F32.mul angleY DEG2RAD in
  is_number (cosf radY) = true -> is_number (sinf radY) = true ->
  is_number (cosf radX) = true -> is_number (sinf radX) = true ->
  let r := Particle.Rotate v angleX angleY in
  is_zero (Vector3.x r) = true
  /\ same_value (Vector3.y r) (F32.mul (cosf radX) y)
  /\ same_value (Vector3.z r) (F32.mul (sinf radX) y).
Proof.
  intros v radX radY HcY HsY HcX HsX r.
  unfold r, Particle.Rotate, v. cbv zeta. cbn [Vector3.x Vector3.y Vector3.z].
  fold radX radY.
  assert (Hz : is_zero (F32.add (F32.mul (F32.opp (sinf radY)) (S754_zero sx))
                                (F32.mul (cosf radY) (S754_zero sz))) = true).
  { apply add_zeros; apply mul_zero_any_r; [now apply opp_number | assumption]. }
  split; [|split].
  - apply add_zeros; now apply mul_zero_any_r.
  - apply sub_zero_r.
    destruct (F32.add (F32.mul (F32.opp (sinf radY)) (S754_zero sx))
                      (F32.mul (cosf radY) (S754_zero sz))) as [s0 | | |];
      try discriminate.
    now apply mul_zero_any_r.
  - apply add_zero_r.
    destruct (F32.add (F32.mul (F32.opp (sinf radY)) (S754_zero sx))
                      (F32.mul (cosf radY) (S754_zero sz))) as [s0 | | |];
      try discriminate.
    now apply mul_zero_any_r.
Qed.

End Direction.

(** * Examples on the sample platform *)

(** C1 on a concrete run: capacity 3, calls [Fixture.calls]; the three
    [Update] calls return 3, 3 and 2. *)
Lemma pool_capacity_invariant_witness :
  0 <= EmitterConfig.capacity (Sample.config 3 100 1 2)
  /\ (let r := fst (run Fixture.calls (Emitter.make (Sample.config 3 100 1 2)) 42) in
      Forall (fun n => 0 <= n <= EmitterConfig.capacity (Sample.config 3 100 1 2)) (fst r)
      /\ Z.of_nat (length (Emitter.particles (snd r)))
         = EmitterConfig.capacity (Sample.config 3 100 1 2)
      /\ EmitterConfig.capacity (Emitter.config (snd r))
         = EmitterConfig.capacity (Sample.config 3 100 1 2)
      /\ Emitter.activeCount (Emitter.particles (snd r))
         <= EmitterConfig.capacity (Sample.config 3 100 1 2)).
Proof.
  split.
  - simpl. lia.
  - apply (pool_capacity_invariant (Sample.config 3 100 1 2) Fixture.calls 42).
    simpl. lia.
Defined.

Example pool_capacity_run :
  fst (fst (run Fixture.calls (Emitter.make (Sample.config 3 100 1 2)) 42)) = [3; 3; 2].
Proof. vm_compute. reflexivity. Qed.

(** C8 on a concrete run: started, stopped before the first [Update]. *)
Lemma idle_emitter_stays_empty_witness :
  idle false Fixture.idle_calls = true
  /\ (let r := fst (run Fixture.idle_calls (Emitter.make (Sample.config 3 100 1 2)) 42) in
      Forall (fun n => n = 0) (fst r)
      /\ Forall (fun p => Particle.active p = false) (Emitter.particles (snd r))
      /\ Emitter.activeCount (Emitter.particles (snd r)) = 0).
Proof.
  split.
  - reflexivity.
  - apply (idle_emitter_stays_empty (Sample.config 3 100 1 2) Fixture.idle_calls 42).
    reflexivity.
Defined.

(** C10 on a concrete pool: [Fixture.holding] holds one particle of
    lifetime 2; an [Update] of 3 seconds returns 1 and leaves no particle
    active. *)
Lemma Update_counts_slots_active_on_arrival_witness :
  Z.of_nat (length (Emitter.particles Fixture.holding)) < 2 ^ 64
  /\ fst (fst (Emitter.Update (Sample.f 3) Fixture.holding 42)) = 1
  /\ Emitter.activeCount
       (Emitter.particles (snd (fst (Emitter.Update (Sample.f 3) Fixture.holding 42))))
     < fst (fst (Emitter.Update (Sample.f 3) Fixture.holding 42)).
Proof.
  assert (Hlen : Z.of_nat (length (Emitter.particles Fixture.holding)) < 2 ^ 64)
    by (vm_compute; reflexivity).
  destruct (Update_counts_slots_active_on_arrival (Sample.f 3) Fixture.holding 42 Hlen)
    as (H1 & _ & H3).
  split; [exact Hlen | split].
  - vm_compute. reflexivity.
  - apply H3. constructor. vm_compute. reflexivity.
Defined.

(** C3 at the failing input: the burst range is [{0, 0}], the sampled
    amount is 0, all three slots are free, and [Burst] activates slot 0. *)
Lemma Burst_activates_witness :
  let e := Emitter.make (Sample.config 3 100 0 0) in
  Z.of_nat (length (Emitter.particles e)) < 2 ^ 64
  /\ fst (IntRange.RandomValue (P := Sample.platform)
            (EmitterConfig.burst (Emitter.config e)) 42) = 0
  /\ Emitter.activeCount (Emitter.particles e) = 0
  /\ Emitter.activeCount (Emitter.particles (fst (Emitter.Burst e 42))) = 1
  /\ map Particle.active (Emitter.particles (fst (Emitter.Burst e 42)))
     = [true; false; false].
Proof.
  intros e.
  assert (Hlen : Z.of_nat (length (Emitter.particles e)) < 2 ^ 64)
    by (vm_compute; reflexivity).
  destruct (Burst_activates e 42 Hlen) as (H1 & H2 & _).
  split; [exact Hlen | split; [| split; [| split]]].
  - vm_compute. reflexivity.
  - vm_compute. reflexivity.
  - rewrite H2. vm_compute. reflexivity.
  - rewrite H1. vm_compute. reflexivity.
Defined.

(** C5 on a concrete particle of age 0 and lifetime 2: a step of 2 seconds
    brings the age to the lifetime and the particle stays active; a step
    of 3 seconds expires it and changes nothing but [age] and [active]. *)
Lemma expiry_is_strict_witness :
  Particle.active Fixture.shortlived = true
  /\ Particle.active (Particle.Update (Sample.f 2) Fixture.ground Fixture.shortlived) = true
  /\ Particle.Update (Sample.f 3) Fixture.ground Fixture.shortlived
     = Particle.mk (Sample.v3 0 0 0) (Sample.v3 0 0 0) (Sample.v3 0 0 0)
         (Sample.v3 0 0 0) F32.one (Sample.f 3) (Sample.f 2) F32.one false.
Proof.
  assert (Ha : Particle.active Fixture.shortlived = true) by reflexivity.
  destruct (expiry_is_strict (Sample.f 2) Fixture.ground Fixture.shortlived Ha)
    as (_ & _ & _ & Hstay & _).
  destruct (expiry_is_strict (Sample.f 3) Fixture.ground Fixture.shortlived Ha)
    as (_ & _ & _ & _ & Hgone).
  split; [exact Ha | split].
  - apply Hstay. vm_compute. reflexivity.
  - rewrite Hgone by (vm_compute; reflexivity). vm_compute. reflexivity.
Defined.

(** C6 on a concrete particle: [Fixture.falling] starts at height 1 with
    vertical velocity -3; after one second it would be at height -2, so it
    is put at height 0 with vertical velocity 1.5. *)
Lemma ground_collision_witness :
  Particle.active Fixture.falling = true
  /\ Particle.IsExpired
       (Particle.with_age Fixture.falling
          (F32.add (Particle.age Fixture.falling) F32.one)) = false
  /\ Particle.position (Particle.Update F32.one Fixture.ground Fixture.falling)
     = Sample.v3 0 0 0
  /\ Particle.velocity (Particle.Update F32.one Fixture.ground Fixture.falling)
     = Vector3.mk F32.zero (S754_finite false 12582912 (-23)) F32.zero.
Proof.
  assert (Ha : Particle.active Fixture.falling = true) by reflexivity.
  assert (He : Particle.IsExpired
                 (Particle.with_age Fixture.falling
                    (F32.add (Particle.age Fixture.falling) F32.one)) = false)
    by (vm_compute; reflexivity).
  destruct (ground_collision F32.one Fixture.ground Fixture.falling Ha He)
    as (Hhit & _ & _).
  destruct Hhit as [Hpos Hvel]; [reflexivity | vm_compute; reflexivity |].
  split; [exact Ha | split; [exact He | split]].
  - rewrite Hpos. vm_compute. reflexivity.
  - rewrite Hvel. vm_compute. reflexivity.
Defined.

(** C2, the claim refuted on a concrete step: the emitter's origin is now
    [(6,0,0)], the particle sits at [(3,0,0)] and was spawned when the
    origin was [(0,0,0)].  The step gives it the velocity [(-1,0,0)],
    toward its recorded origin; an attraction toward the live origin
    would give [(1,0,0)]. *)
Lemma attraction_toward_live_origin_counterexample :
  let p1 := Particle.with_age Fixture.drifted
              (F32.add (Particle.age Fixture.drifted) F32.one) in
  Particle.active Fixture.drifted = true
  /\ Particle.IsExpired p1 = false
  /\ EmitterConfig.origin Fixture.moved = Sample.v3 6 0 0
  /\ Particle.velocity (Particle.Update F32.one Fixture.moved Fixture.drifted)
     = Sample.v3 (-1) 0 0
  /\ velocity_toward (EmitterConfig.origin Fixture.moved) F32.one Fixture.moved p1
     = Sample.v3 1 0 0
  /\ Particle.velocity (Particle.Update F32.one Fixture.moved Fixture.drifted)
     <> velocity_toward (EmitterConfig.origin Fixture.moved) F32.one Fixture.moved p1.
Proof.
  vm_compute. repeat split; discriminate.
Qed.

(** The amended C2 on the same step. *)
Lemma attraction_target_frozen_at_spawn_witness :
  Particle.active Fixture.drifted = true
  /\ Particle.IsExpired
       (Particle.with_age Fixture.drifted
          (F32.add (Particle.age Fixture.drifted) F32.one)) = false
  /\ Particle.velocity (Particle.Update F32.one Fixture.moved Fixture.drifted)
     = Particle.velocity
         (Particle.Update F32.one (Sample.config 4 1 0 0) Fixture.drifted)
  /\ Particle.origin (Particle.Update F32.one Fixture.moved Fixture.drifted)
     = Sample.v3 0 0 0.
Proof.
  assert (Ha : Particle.active Fixture.drifted = true) by reflexivity.
  assert (He : Particle.IsExpired
                 (Particle.with_age Fixture.drifted
                    (F32.add (Particle.age Fixture.drifted) F32.one)) = false)
    by (vm_compute; reflexivity).
  destruct (attraction_target_frozen_at_spawn F32.one (Sample.config 4 1 0 0)
              Fixture.drifted (Sample.v3 6 0 0) Ha He)
    as (_ & _ & Hv & _ & _ & _).
  destruct (attraction_target_frozen_at_spawn F32.one Fixture.moved
              Fixture.drifted (Sample.v3 6 0 0) Ha He)
    as (_ & _ & _ & _ & Ho & _).
  split; [exact Ha | split; [exact He | split]].
  - exact Hv.
  - rewrite Ho. reflexivity.
Defined.




(** ** The further properties on concrete inputs *)

(** X3 on [Fixture.shortlived], of lifetime 2: after one step with a NaN
    frame time, two steps of 100 seconds each leave it active. *)
Lemma nan_frame_time_makes_particles_immortal_witness :
  Particle.active Fixture.shortlived = true
  /\ (let q := Particle_steps
                 [(Sample.f 100, Fixture.ground); (Sample.f 100, Fixture.ground)]
                 (Particle.Update S754_nan Fixture.ground Fixture.shortlived) in
      Particle.active q = true /\ Particle.age q = S754_nan).
Proof.
  assert (Ha : Particle.active Fixture.shortlived = true) by reflexivity.
  split; [exact Ha|].
  apply (nan_frame_time_makes_particles_immortal Fixture.ground
           [(Sample.f 100, Fixture.ground); (Sample.f 100, Fixture.ground)]
           Fixture.shortlived Ha).
Defined.

(** X7 on [Fixture.holding], a stopped emitter with one particle and one
    free slot: an [Update] of one second returns 1 and steps the pool. *)
Lemma Update_without_spawn_witness :
  Z.of_nat (length (Emitter.particles Fixture.holding)) < 2 ^ 64
  /\ Emitter.isEmitting Fixture.holding = false
  /\ Emitter.Update F32.one Fixture.holding 42
     = (1, stepped F32.one F32.zero Fixture.holding, 42).
Proof.
  assert (Hlen : Z.of_nat (length (Emitter.particles Fixture.holding)) < 2 ^ 64)
    by (vm_compute; reflexivity).
  assert (Hstop : Emitter.isEmitting Fixture.holding = false) by reflexivity.
  split; [exact Hlen | split; [exact Hstop |]].
  apply (Update_without_spawn F32.one Fixture.holding 42 Hlen (or_introl Hstop)).
Defined.

(** X8 on the spec's scenario: capacity 10, rate 100, a first frame of a
    tenth of a second. *)
Lemma first_Update_spawns_whole_part_witness :
  0 <= EmitterConfig.capacity (Sample.config 10 100 0 0) < 2 ^ 64
  /\ F32.nonneg_finite
       (emission F32.tenth (Emitter.Start (Emitter.make (Sample.config 10 100 0 0))))
     = true
  /\ fst (fst (Emitter.Update F32.tenth
                 (Emitter.Start (Emitter.make (Sample.config 10 100 0 0))) 42)) = 10.
Proof.
  assert (Hc : 0 <= EmitterConfig.capacity (Sample.config 10 100 0 0) < 2 ^ 64)
    by (simpl; lia).
  assert (Hn : F32.nonneg_finite
                 (emission F32.tenth
                    (Emitter.Start (Emitter.make (Sample.config 10 100 0 0))))
               = true) by reflexivity.
  split; [exact Hc | split; [exact Hn |]].
  rewrite (first_Update_spawns_whole_part (Sample.config 10 100 0 0) F32.tenth 42 Hc Hn).
  reflexivity.
Defined.

(** X9 on a burst of two particles into three free slots: one draw for
    the amount, twelve for the particles. *)
Lemma Burst_draws_per_particle_witness :
  let e := Emitter.make (Sample.config 3 100 2 2) in
  Z.of_nat (length (Emitter.particles e)) < 2 ^ 64
  /\ snd (Emitter.Burst e 42)
     = draws 12 (snd (GetRandomValue (Platform := Sample.platform) 2 2 42)).
Proof.
  intros e.
  assert (Hlen : Z.of_nat (length (Emitter.particles e)) < 2 ^ 64)
    by (vm_compute; reflexivity).
  split; [exact Hlen|].
  rewrite (Burst_draws_per_particle e 42 Hlen). reflexivity.
Defined.

(** X11 on the burst range [{-1, -1}]: all three slots are filled. *)
Lemma Burst_fills_the_pool_witness :
  let e := Emitter.make (Sample.config 3 100 (-1) (-1)) in
  Z.of_nat (length (Emitter.particles e)) < 2 ^ 63
  /\ fst (IntRange.RandomValue (P := Sample.platform)
            (EmitterConfig.burst (Emitter.config e)) 42) = -1
  /\ Forall (fun p => Particle.active p = true)
            (Emitter.particles (fst (Emitter.Burst e 42))).
Proof.
  intros e.
  assert (Hlen : Z.of_nat (length (Emitter.particles e)) < 2 ^ 63)
    by (vm_compute; reflexivity).
  assert (Ha : fst (IntRange.RandomValue (P := Sample.platform)
                      (EmitterConfig.burst (Emitter.config e)) 42) = -1)
    by (vm_compute; reflexivity).
  split; [exact Hlen | split; [exact Ha |]].
  apply (Burst_fills_the_pool e 42 Hlen); rewrite Ha; lia.
Defined.

(** X12 on a pool of one slot that is taken. *)
Lemma Burst_on_full_pool_witness :
  let e := Emitter.mk (Sample.config 1 1 3 3) F32.zero false [Fixture.shortlived] in
  Forall (fun p => Particle.active p = true) (Emitter.particles e)
  /\ fst (Emitter.Burst e 42) = e.
Proof.
  intros e.
  assert (Hall : Forall (fun p => Particle.active p = true) (Emitter.particles e))
    by (constructor; [reflexivity | constructor]).
  split; [exact Hall|].
  rewrite (Burst_on_full_pool e 42 Hall). reflexivity.
Defined.

(** X15 on [Fixture.pair]: the emitters return 1 and 10, the system
    returns 11. *)
Lemma System_Update_adds_up_witness :
  totalSlots Fixture.pair < 2 ^ 64
  /\ fst (ParticleSystem.returned F32.tenth Fixture.pair 42) = [1; 10]
  /\ fst (fst (ParticleSystem.Update F32.tenth Fixture.pair 42)) = 11.
Proof.
  assert (Hlen : totalSlots Fixture.pair < 2 ^ 64) by (vm_compute; reflexivity).
  destruct (System_Update_adds_up F32.tenth Fixture.pair 42 Hlen) as (H1 & _).
  split; [exact Hlen | split].
  - vm_compute. reflexivity.
  - rewrite H1. vm_compute. reflexivity.
Defined.

(** X16 on [Fixture.pair], stopped: an [Update] of 3 seconds returns 1,
    leaves the random source at 42, and expires the one particle. *)
Lemma stopped_system_keeps_animating_witness :
  totalSlots Fixture.pair < 2 ^ 64
  /\ fst (fst (ParticleSystem.Update (Sample.f 3)
                 (ParticleSystem.Stop Fixture.pair) 42)) = 1
  /\ snd (ParticleSystem.Update (Sample.f 3) (ParticleSystem.Stop Fixture.pair) 42) = 42
  /\ totalActive (snd (fst (ParticleSystem.Update (Sample.f 3)
                              (ParticleSystem.Stop Fixture.pair) 42))) = 0.
Proof.
  assert (Hlen : totalSlots Fixture.pair < 2 ^ 64) by (vm_compute; reflexivity).
  rewrite (stopped_system_keeps_animating (Sample.f 3) Fixture.pair 42 Hlen).
  split; [exact Hlen | split; [| split]]; vm_compute; reflexivity.
Defined.

(** X17 on [Fixture.pair]. *)
Lemma System_Burst_keeps_shape_witness :
  totalSlots Fixture.pair < 2 ^ 64
  /\ totalActive Fixture.pair = 1
  /\ totalActive Fixture.pair
     <= totalActive (fst (ParticleSystem.Burst Fixture.pair 42))
     <= totalSlots Fixture.pair.
Proof.
  assert (Hlen : totalSlots Fixture.pair < 2 ^ 64) by (vm_compute; reflexivity).
  destruct (System_Burst_keeps_shape Fixture.pair 42 Hlen) as (_ & _ & H).
  split; [exact Hlen | split; [vm_compute; reflexivity | exact H]].
Defined.

(** X18 on two frames of [Fixture.pair]. *)
Lemma frame_loop_draws_what_Update_counted_witness :
  totalSlots Fixture.pair < 2 ^ 64
  /\ map fst (fst (Demo.frames [F32.tenth; Sample.f 3] Fixture.pair 42)) = [11; 11]
  /\ Forall (fun fr => Z.of_nat (length (drawnPositions (snd fr))) <= fst fr
                       /\ fst fr <= totalSlots Fixture.pair
                       /\ bracketed false (snd fr) = true)
            (fst (Demo.frames [F32.tenth; Sample.f 3] Fixture.pair 42)).
Proof.
  assert (Hlen : totalSlots Fixture.pair < 2 ^ 64) by (vm_compute; reflexivity).
  split; [exact Hlen | split].
  - vm_compute. reflexivity.
  - apply (frame_loop_draws_what_Update_counted [F32.tenth; Sample.f 3]
             Fixture.pair 42 Hlen).
Defined.

(** X20 on the range [{0, 0}]. *)
Lemma RandomValue_of_point_range_witness :
  FloatRange.max (Sample.range 0 0) = FloatRange.min (Sample.range 0 0)
  /\ is_number (FloatRange.min (Sample.range 0 0)) = true
  /\ is_number
       (F32.div
          (F32.of_Z (fst (GetRandomValue (Platform := Sample.platform) 0
                            (RAND_MAX (Platform := Sample.platform)) 42)))
          (F32.of_Z (RAND_MAX (Platform := Sample.platform)))) = true
  /\ fst (FloatRange.RandomValue (P := Sample.platform) (Sample.range 0 0) 42)
     = F32.zero.
Proof.
  assert (H1 : FloatRange.max (Sample.range 0 0) = FloatRange.min (Sample.range 0 0))
    by reflexivity.
  assert (H2 : is_number (FloatRange.min (Sample.range 0 0)) = true) by reflexivity.
  assert (H3 : is_number
                 (F32.div
                    (F32.of_Z (fst (GetRandomValue (Platform := Sample.platform) 0
                                      (RAND_MAX (Platform := Sample.platform)) 42)))
                    (F32.of_Z (RAND_MAX (Platform := Sample.platform)))) = true)
    by (vm_compute; reflexivity).
  destruct (RandomValue_of_point_range (P := Sample.platform) (Sample.range 0 0) 42
              H1 H2 H3) as [_ H].
  split; [exact H1 | split; [exact H2 | split; [exact H3 |]]].
  apply H. discriminate.
Defined.

(** X21 on the demo's ember colors at a tenth of the lifetime: red, green
    and blue stay at 255, 100 and 0. *)
Lemma LinearFade_keeps_constant_channels_witness :
  Color.wf (Color.mk 255 100 0 255)
  /\ is_number F32.tenth = true
  /\ (let c := Emitter.LinearFade (Color.mk 255 100 0 255) (Color.mk 255 100 0 0)
                 F32.tenth in
      Color.r c = 255 /\ Color.g c = 100 /\ Color.b c = 0).
Proof.
  assert (W : Color.wf (Color.mk 255 100 0 255)) by (unfold Color.wf; simpl; lia).
  assert (N : is_number F32.tenth = true) by reflexivity.
  destruct (LinearFade_keeps_constant_channels (Color.mk 255 100 0 255)
              (Color.mk 255 100 0 0) F32.tenth W N) as (Hr & Hg & Hb & _).
  split; [exact W | split; [exact N |]].
  cbv zeta. split; [now apply Hr | split; [now apply Hg | now apply Hb]].
Defined.

(** X22 on the direction of the demo's fire emitter, which the
    constructor leaves at [(0, 1, 0)], turned by 10 and 5 degrees. *)
Lemma Rotate_of_vertical_direction_witness :
  let m := Sample.scaling F32.one F32.one F32.one in
  let d := EmitterConfig.direction
             (Emitter.config
                (Emitter.make (Demo.fireEmitterConfig (P := Sample.platform) m))) in
  d = Vector3.mk (S754_zero false) F32.one (S754_zero false)
  /\ is_zero (Vector3.x (Particle.Rotate (P := Sample.platform) d
                           (Sample.f 10) (Sample.f 5))) = true.
Proof.
  intros m d.
  assert (Hd : d = Vector3.mk (S754_zero false) F32.one (S754_zero false))
    by (vm_compute; reflexivity).
  split; [exact Hd|]. rewrite Hd.
  apply (Rotate_of_vertical_direction (P := Sample.platform) F32.one
           (Sample.f 10) (Sample.f 5) false false);
    vm_compute; reflexivity.
Defined.
